(** * The realtime media-session orchestrator of GuiaVision

    A shallow embedding of [src/App.tsx] (the React component [App]: the
    playback scheduler, the interruption routine, the frame cadence, the
    audio send callback and the start/stop lifecycle) and of the transport
    callbacks of [services/geminiLiveService.ts], followed by the theorems
    that settle the properties the specification states about them.

    Conventions of the embedding.
    - A React state cell ([useState]) and a ref ([useRef]) are fields of
      [Component]; a [setX v] call is a field update.
    - The browser objects the component drives (interval timers, audio
      source nodes, media tracks, the live session, speech synthesis) are
      fields of [Browser]; every call the component makes on them is a
      field update there, so that "has been stopped", "has been cleared"
      and "has been sent" are properties of the resulting state.
    - JavaScript numbers that denote seconds on the output clock are exact
      rationals ([Q]); rounding of binary64 arithmetic is not modelled.
    - Values the browser hands to the code ([ctx.currentTime], the blob of
      [canvas.toBlob], the samples of an audio-process event) are
      arguments of the handler that reads them.
    - [console.log] / [console.error] output is not modelled. *)

From Stdlib Require Import ZArith QArith Qminmax Qround Lqa Lia.
From stdpp Require Import base decidable option list gmap sets strings.

Local Open Scope Q_scope.

(** ** Data model *)

(** [enum AppState] of [types.ts]. *)
Inductive AppState : Type := IDLE | CONNECTING | ACTIVE | ERROR.

#[global] Instance AppState_eq_dec : EqDecision AppState.
Proof. solve_decision. Defined.

(** Identities of browser objects: objects are compared by identity in
    JavaScript ([Set<AudioBufferSourceNode>], interval handles), so each
    kind of object is represented by a positive serial number. *)
Definition NodeId := positive.
Definition TimerId := positive.
Definition TrackId := positive.
Definition SessionId := positive.

(** An [AudioBuffer]: the decoded chunk.  Its [duration] attribute is, by
    the Web Audio definition, the number of sample frames divided by the
    sample rate. *)
Record AudioBuffer : Type := mkAudioBuffer {
  buf_length : N;
  buf_sampleRate : positive
}.

Definition duration (b : AudioBuffer) : Q :=
  Z.of_N (buf_length b) # buf_sampleRate b.

(** An [AudioContext] created with [{ sampleRate: r }]. *)
Record AudioContext : Type := mkAudioContext { ctx_sampleRate : positive }.

(** A [MediaStream]: what [getTracks()] returns. *)
Definition MediaStream := list TrackId.

(** The [<video>] element behind [videoRef].  [videoWidth] and
    [videoHeight] are maintained by the browser: 0 until the metadata of
    the attached stream is known. *)
Record VideoElement : Type := mkVideo {
  srcObject : option MediaStream;
  videoWidth : N;
  videoHeight : N
}.

(** The hidden [<canvas>] element behind [canvasRef]. *)
Record CanvasElement : Type := mkCanvas {
  canvas_width : N;
  canvas_height : N
}.

(** The argument of [session.sendRealtimeInput]: [{ media: { data, mimeType } }]. *)
Record Media : Type := mkMedia {
  media_data : string;
  media_mimeType : string
}.

(** One [source.start(when)] call: the node, its buffer and the time it was
    scheduled at. *)
Record Scheduled : Type := mkScheduled {
  sch_node : NodeId;
  sch_buffer : AudioBuffer;
  sch_startAt : Q
}.

(** The [onaudioprocess] closure installed by one run of [startAssistance].
    The identifier [status] inside it is the constant bound by
    [const [status, setStatus] = useState(...)] in the render that created
    this [startAssistance]; [cl_status] is that captured value. *)
Record AudioProcessHandler : Type := mkHandler { cl_status : AppState }.

#[global] Instance AudioProcessHandler_eq_dec : EqDecision AudioProcessHandler.
Proof. solve_decision. Defined.

(** The state of the component: lines 11-22 of [App.tsx].  ([alerts] is
    never written and is left out.) *)
Record Component : Type := mkComponent {
  status : AppState;
  lastTranscript : string;
  videoRef : option VideoElement;
  canvasRef : option CanvasElement;
  audioContextRef : option AudioContext;
  inputAudioContextRef : option AudioContext;
  sessionRef : option SessionId;
  nextStartTimeRef : Q;
  activeSourcesRef : gset NodeId;
  frameIntervalRef : option TimerId
}.

(** The browser objects the component acts on. *)
Record Browser : Type := mkBrowser {
  (** live [setInterval] timers, and the next handle to give out *)
  timers : gset TimerId;
  timerSerial : TimerId;
  (** every [source.start(when)] so far, oldest first; nodes on which
      [stop()] was called; the next node identity *)
  started : list Scheduled;
  stopped : gset NodeId;
  nodeSerial : NodeId;
  (** media tracks on which [stop()] was called *)
  endedTracks : gset TrackId;
  (** sessions on which [close()] was called *)
  closedSessions : gset SessionId;
  (** every [sendRealtimeInput] call so far, oldest first *)
  sent : list (SessionId * Media);
  (** every [speechSynthesis.speak] so far, oldest first *)
  spoken : list string;
  (** the [onaudioprocess] handlers connected to the audio graph *)
  processors : list AudioProcessHandler
}.

Record State : Type := mkState { app : Component; env : Browser }.

(** *** Field updates *)

Definition upd_app (f : Component -> Component) (s : State) : State :=
  {| app := f (app s); env := env s |}.

Definition upd_env (f : Browser -> Browser) (s : State) : State :=
  {| app := app s; env := f (env s) |}.

Definition setStatus (v : AppState) : State -> State :=
  upd_app (fun c => mkComponent v (lastTranscript c) (videoRef c) (canvasRef c)
    (audioContextRef c) (inputAudioContextRef c) (sessionRef c)
    (nextStartTimeRef c) (activeSourcesRef c) (frameIntervalRef c)).

Definition setLastTranscript (v : string) : State -> State :=
  upd_app (fun c => mkComponent (status c) v (videoRef c) (canvasRef c)
    (audioContextRef c) (inputAudioContextRef c) (sessionRef c)
    (nextStartTimeRef c) (activeSourcesRef c) (frameIntervalRef c)).

Definition set_videoRef (v : option VideoElement) : State -> State :=
  upd_app (fun c => mkComponent (status c) (lastTranscript c) v (canvasRef c)
    (audioContextRef c) (inputAudioContextRef c) (sessionRef c)
    (nextStartTimeRef c) (activeSourcesRef c) (frameIntervalRef c)).

Definition set_canvasRef (v : option CanvasElement) : State -> State :=
  upd_app (fun c => mkComponent (status c) (lastTranscript c) (videoRef c) v
    (audioContextRef c) (inputAudioContextRef c) (sessionRef c)
    (nextStartTimeRef c) (activeSourcesRef c) (frameIntervalRef c)).

Definition set_audioContextRef (v : option AudioContext) : State -> State :=
  upd_app (fun c => mkComponent (status c) (lastTranscript c) (videoRef c)
    (canvasRef c) v (inputAudioContextRef c) (sessionRef c)
    (nextStartTimeRef c) (activeSourcesRef c) (frameIntervalRef c)).

Definition set_inputAudioContextRef (v : option AudioContext) : State -> State :=
  upd_app (fun c => mkComponent (status c) (lastTranscript c) (videoRef c)
    (canvasRef c) (audioContextRef c) v (sessionRef c)
    (nextStartTimeRef c) (activeSourcesRef c) (frameIntervalRef c)).

Definition set_sessionRef (v : option SessionId) : State -> State :=
  upd_app (fun c => mkComponent (status c) (lastTranscript c) (videoRef c)
    (canvasRef c) (audioContextRef c) (inputAudioContextRef c) v
    (nextStartTimeRef c) (activeSourcesRef c) (frameIntervalRef c)).

Definition set_nextStartTimeRef (v : Q) : State -> State :=
  upd_app (fun c => mkComponent (status c) (lastTranscript c) (videoRef c)
    (canvasRef c) (audioContextRef c) (inputAudioContextRef c) (sessionRef c)
    v (activeSourcesRef c) (frameIntervalRef c)).

Definition set_activeSourcesRef (v : gset NodeId) : State -> State :=
  upd_app (fun c => mkComponent (status c) (lastTranscript c) (videoRef c)
    (canvasRef c) (audioContextRef c) (inputAudioContextRef c) (sessionRef c)
    (nextStartTimeRef c) v (frameIntervalRef c)).

Definition set_frameIntervalRef (v : option TimerId) : State -> State :=
  upd_app (fun c => mkComponent (status c) (lastTranscript c) (videoRef c)
    (canvasRef c) (audioContextRef c) (inputAudioContextRef c) (sessionRef c)
    (nextStartTimeRef c) (activeSourcesRef c) v).

Definition set_timers (v : gset TimerId) : State -> State :=
  upd_env (fun b => mkBrowser v (timerSerial b) (started b) (stopped b)
    (nodeSerial b) (endedTracks b) (closedSessions b) (sent b) (spoken b)
    (processors b)).

Definition set_timerSerial (v : TimerId) : State -> State :=
  upd_env (fun b => mkBrowser (timers b) v (started b) (stopped b)
    (nodeSerial b) (endedTracks b) (closedSessions b) (sent b) (spoken b)
    (processors b)).

Definition set_started (v : list Scheduled) : State -> State :=
  upd_env (fun b => mkBrowser (timers b) (timerSerial b) v (stopped b)
    (nodeSerial b) (endedTracks b) (closedSessions b) (sent b) (spoken b)
    (processors b)).

Definition set_stopped (v : gset NodeId) : State -> State :=
  upd_env (fun b => mkBrowser (timers b) (timerSerial b) (started b) v
    (nodeSerial b) (endedTracks b) (closedSessions b) (sent b) (spoken b)
    (processors b)).

Definition set_nodeSerial (v : NodeId) : State -> State :=
  upd_env (fun b => mkBrowser (timers b) (timerSerial b) (started b) (stopped b)
    v (endedTracks b) (closedSessions b) (sent b) (spoken b) (processors b)).

Definition set_endedTracks (v : gset TrackId) : State -> State :=
  upd_env (fun b => mkBrowser (timers b) (timerSerial b) (started b) (stopped b)
    (nodeSerial b) v (closedSessions b) (sent b) (spoken b) (processors b)).

Definition set_closedSessions (v : gset SessionId) : State -> State :=
  upd_env (fun b => mkBrowser (timers b) (timerSerial b) (started b) (stopped b)
    (nodeSerial b) (endedTracks b) v (sent b) (spoken b) (processors b)).

Definition set_sent (v : list (SessionId * Media)) : State -> State :=
  upd_env (fun b => mkBrowser (timers b) (timerSerial b) (started b) (stopped b)
    (nodeSerial b) (endedTracks b) (closedSessions b) v (spoken b)
    (processors b)).

Definition set_spoken (v : list string) : State -> State :=
  upd_env (fun b => mkBrowser (timers b) (timerSerial b) (started b) (stopped b)
    (nodeSerial b) (endedTracks b) (closedSessions b) (sent b) v
    (processors b)).

Definition set_processors (v : list AudioProcessHandler) : State -> State :=
  upd_env (fun b => mkBrowser (timers b) (timerSerial b) (started b) (stopped b)
    (nodeSerial b) (endedTracks b) (closedSessions b) (sent b) (spoken b) v).

(** ** Browser operations the component calls *)

(** [window.speechSynthesis.speak(utterance)], lines 24-28. *)
Definition speak (text : string) (s : State) : State :=
  set_spoken (spoken (env s) ++ [text]) s.

(** [source.stop()] on an [AudioBufferSourceNode]. *)
Definition source_stop (n : NodeId) (s : State) : State :=
  set_stopped ({[n]} ∪ stopped (env s)) s.

(** [source.start(when)]. *)
Definition source_start (n : NodeId) (b : AudioBuffer) (when : Q) (s : State) : State :=
  set_started (started (env s) ++ [mkScheduled n b when]) s.

(** [ctx.createBufferSource()]: a node with a fresh identity. *)
Definition createBufferSource (s : State) : NodeId * State :=
  let n := nodeSerial (env s) in (n, set_nodeSerial (Pos.succ n) s).

(** [window.setInterval(f, ms)]: a live timer with a fresh handle. *)
Definition setInterval (s : State) : TimerId * State :=
  let t := timerSerial (env s) in
  (t, set_timers ({[t]} ∪ timers (env s)) (set_timerSerial (Pos.succ t) s)).

(** [clearInterval(id)]. *)
Definition clearInterval (t : TimerId) (s : State) : State :=
  set_timers (timers (env s) ∖ {[t]}) s.

(** [session.close()]. *)
Definition session_close (k : SessionId) (s : State) : State :=
  set_closedSessions ({[k]} ∪ closedSessions (env s)) s.

(** [session.sendRealtimeInput({ media })]. *)
Definition sendRealtimeInput (k : SessionId) (m : Media) (s : State) : State :=
  set_sent (sent (env s) ++ [(k, m)]) s.

(** [track.stop()] on a [MediaStreamTrack]. *)
Definition track_stop (t : TrackId) (s : State) : State :=
  set_endedTracks ({[t]} ∪ endedTracks (env s)) s.

(** [Math.max(a, b)] on two numbers. *)
Definition Math_max (a b : Q) : Q := Qmax a b.

(** ** The component: [App.tsx] *)

Definition FRAME_RATE : Q := 1.
Definition JPEG_QUALITY : Q := 6 # 10.

(** [stopAudio], lines 30-34. *)
Definition stopAudio (s : State) : State :=
  let s := set_fold source_stop s (activeSourcesRef (app s)) in
  let s := set_activeSourcesRef ∅ s in
  set_nextStartTimeRef 0 s.

(** The [onended] handler of a scheduled source, line 64:
    [() => activeSourcesRef.current.delete(source)]. *)
Definition source_onended (source : NodeId) (s : State) : State :=
  set_activeSourcesRef (activeSourcesRef (app s) ∖ {[source]}) s.

(** [onAudioOutput], lines 57-68.  [now] is the value read from
    [ctx.currentTime]. *)
Definition onAudioOutput (now : Q) (buffer : AudioBuffer) (s : State) : State :=
  match audioContextRef (app s) with
  | None => s
  | Some ctx =>
      let s := set_nextStartTimeRef (Math_max (nextStartTimeRef (app s)) now) s in
      let '(source, s) := createBufferSource s in
      let s := source_start source buffer (nextStartTimeRef (app s)) s in
      let s := set_nextStartTimeRef (nextStartTimeRef (app s) + duration buffer) s in
      set_activeSourcesRef ({[source]} ∪ activeSourcesRef (app s)) s
  end.

(** [onInterrupted], line 69. *)
Definition onInterrupted (s : State) : State := stopAudio s.

(** [onTranscription], lines 70-72. *)
Definition onTranscription (text : string) (isUser : bool) (s : State) : State :=
  if negb isUser then setLastTranscript text s else s.

(** [onError], lines 73-77. *)
Definition onError (s : State) : State :=
  let s := setStatus ERROR s in
  speak "Ocorreu um erro na conexão." s.

(** [onClose], lines 78-81. *)
Definition onClose (s : State) : State :=
  let s := setStatus IDLE s in
  speak "Assistente desligado." s.

(** The [catch] block of [startAssistance], lines 127-131. *)
Definition startAssistance_catch (s : State) : State :=
  let s := setStatus ERROR s in
  speak "Não consegui acessar a câmera ou o microfone." s.

(** [startAssistance] up to its first [await], lines 37-49: the status
    becomes Connecting, the two audio contexts are created and the media
    request is issued. *)
Definition startAssistance_begin (s : State) : State :=
  let s := setStatus CONNECTING s in
  let s := speak "Iniciando GuiaVision. Por favor, aguarde." s in
  let s := set_audioContextRef (Some (mkAudioContext 24000)) s in
  set_inputAudioContextRef (Some (mkAudioContext 16000)) s.

(** [startAssistance] between its two awaits, lines 51-82: the stream is
    attached to the video element and [connectGeminiLive] is called with
    the five callbacks above. *)
Definition startAssistance_gotMedia (stream : MediaStream) (s : State) : State :=
  match videoRef (app s) with
  | Some v => set_videoRef (Some (mkVideo (Some stream) (videoWidth v) (videoHeight v))) s
  | None => s
  end.

(** [startAssistance] after the session promise resolved, lines 84-125.
    [render_status] is the value of the constant [status] in the render
    whose [startAssistance] is running: it is what the [onaudioprocess]
    closure of line 118 reads.  A null [inputAudioContextRef.current]
    makes line 115 throw, which lands in the [catch] block.  The audio
    graph itself ([stream] feeding the script processor) is represented
    by the connected handler alone. *)
Definition startAssistance_connected (render_status : AppState)
    (stream : MediaStream) (session : SessionId) (s : State) : State :=
  let s := set_sessionRef (Some session) s in
  let s := setStatus ACTIVE s in
  let s := speak "Assistente ativo. Estou observando o caminho para você." s in
  let '(id, s) := setInterval s in
  let s := set_frameIntervalRef (Some id) s in
  match inputAudioContextRef (app s) with
  | None => startAssistance_catch s
  | Some _ =>
      set_processors (processors (env s) ++ [mkHandler render_status]) s
  end.

(** The interval callback, lines 89-112, up to the [canvas.toBlob] call.
    [has2d] tells whether [canvas.getContext('2d')] returned a context.
    The result says whether [toBlob] was called. *)
Definition frameTick (has2d : bool) (s : State) : bool * State :=
  match videoRef (app s), canvasRef (app s), sessionRef (app s) with
  | Some video, Some canvas, Some _ =>
      if has2d then
        (true, set_canvasRef (Some (mkCanvas (videoWidth video) (videoHeight video))) s)
      else (false, s)
  | _, _, _ => (false, s)
  end.

(** The [toBlob] callback with its [FileReader], lines 100-110.  [blob] is
    [None] when the encoder produced no blob, and otherwise the base64
    text that follows the comma of the data URL.  (With a blob and a null
    [sessionRef.current] line 105 would throw inside the reader's event
    handler; nothing is sent then.) *)
Definition toBlob_callback (blob : option string) (s : State) : State :=
  match blob with
  | Some base64 =>
      match sessionRef (app s) with
      | Some k => sendRealtimeInput k (mkMedia base64 "image/jpeg") s
      | None => s
      end
  | None => s
  end.

(** One whole tick whose encode completes before anything else happens. *)
Definition frameTick_complete (has2d : bool) (blob : option string) (s : State) : State :=
  let '(called, s) := frameTick has2d s in
  if called then toBlob_callback blob s else s.

(** [stopAssistance], lines 134-142.  Interval handles are positive
    integers and a session is an object, so the truthiness tests of lines
    135 and 136 are tests against null. *)
Definition stopAssistance (s : State) : State :=
  let s := match frameIntervalRef (app s) with
           | Some id => clearInterval id s
           | None => s
           end in
  let s := match sessionRef (app s) with
           | Some k => session_close k s
           | None => s
           end in
  let s := stopAudio s in
  let s := match videoRef (app s) with
           | Some v =>
               match srcObject v with
               | Some stream => foldl (fun s t => track_stop t s) s stream
               | None => s
               end
           | None => s
           end in
  setStatus IDLE s.

(** The state of a freshly mounted component (lines 11-22) in a browser
    where nothing has happened yet.  The two elements are mounted: the JSX
    of lines 148-155 renders them unconditionally. *)
Definition initial : State :=
  {| app := {| status := IDLE; lastTranscript := "";
               videoRef := Some (mkVideo None 0 0);
               canvasRef := Some (mkCanvas 300 150);
               audioContextRef := None; inputAudioContextRef := None;
               sessionRef := None; nextStartTimeRef := 0;
               activeSourcesRef := ∅; frameIntervalRef := None |};
     env := {| timers := ∅; timerSerial := 1%positive; started := [];
               stopped := ∅; nodeSerial := 1%positive; endedTracks := ∅;
               closedSessions := ∅; sent := []; spoken := [];
               processors := [] |} |}.

(** ** The PCM encoder *)

(** [createPcmBlob] lives in [utils/audio-utils], which is not among the
    sources at hand; the module below follows the specification's
    contract for it. *)
Module Pcm.

(** Modelled from the spec: the wire tag of [createPcmBlob] (missing
    [utils/audio-utils]); "a fixed mime/encoding tag", the "raw PCM wire
    tag", at the 16000 Hz input rate. *)
Definition pcmMimeType : string := "audio/pcm;rate=16000".

(** Modelled from the spec: the clamping of [createPcmBlob] (missing
    [utils/audio-utils]); "out-of-range inputs are clamped, not
    rejected", the range being [-1.0, 1.0]. *)
Definition clamp (x : Q) : Q := Qmax (-1) (Qmin 1 x).

(** Rounding toward zero, as a store into a 16-bit integer array does. *)
Definition trunc (x : Q) : Z := if Qle_bool 0 x then Qfloor x else Qceiling x.

(** Modelled from the spec: the sample conversion of [createPcmBlob]
    (missing [utils/audio-utils]); a sample of [-1.0, 1.0] becomes a
    signed 16-bit integer, full scale on either side. *)
Definition toInt16 (x : Q) : Z :=
  let c := clamp x in
  if Qle_bool 0 c then trunc (c * 32767) else trunc (c * 32768).

Definition byte_of_Z (z : Z) : Byte.byte :=
  match Byte.of_N (Z.to_N (z mod 256)) with
  | Some b => b
  | None => Byte.x00
  end.

(** The two bytes of a 16-bit two's-complement integer, low byte first. *)
Definition le16 (z : Z) : list Byte.byte :=
  [byte_of_Z z; byte_of_Z (z / 256)].

(** Modelled from the spec: the frame of [createPcmBlob] (missing
    [utils/audio-utils]); "a binary little-endian 16-bit PCM frame of
    equal sample count". *)
Definition encodeFrame (samples : list Q) : list Byte.byte :=
  flat_map (fun x => le16 (toInt16 x)) samples.

(** Modelled from the spec: [createPcmBlob] (missing
    [utils/audio-utils]); the frame "plus a fixed mime/encoding tag", in
    the payload shape [{ data, mimeType }]. *)
Definition createPcmBlob (samples : list Q) : Media :=
  {| media_data := String.string_of_list_byte (encodeFrame samples);
     media_mimeType := pcmMimeType |}.

(** Reading a frame back: consecutive byte pairs as signed 16-bit
    integers, low byte first. *)
Definition signed16 (lo hi : Byte.byte) : Z :=
  let u := (Z.of_N (Byte.to_N lo) + 256 * Z.of_N (Byte.to_N hi))%Z in
  if (u <? 32768)%Z then u else (u - 65536)%Z.

Fixpoint decodeFrame (bytes : list Byte.byte) : list Z :=
  match bytes with
  | lo :: hi :: rest => signed16 lo hi :: decodeFrame rest
  | _ => []
  end.

End Pcm.

(** [scriptProcessor.onaudioprocess], lines 117-123.  [h] is the closure;
    [inputData] is channel 0 of the event's input buffer. *)
Definition onaudioprocess (h : AudioProcessHandler) (inputData : list Q) (s : State) : State :=
  match sessionRef (app s) with
  | Some k =>
      if decide (cl_status h = ACTIVE) then
        let pcm := Pcm.createPcmBlob inputData in
        sendRealtimeInput k pcm s
      else s
  | None => s
  end.

(** ** The transport: [connectGeminiLive] *)

(** What [onmessage] reads of a server message.  [msg_audio] is the inline
    audio of the first part of the model turn, in the form
    [decodeAudioData(decodeBase64(audioData), ctx, 24000, 1)] gives it
    (both functions are in the missing [utils/audio-utils]). *)
Record ServerMessage : Type := mkMessage {
  msg_audio : option AudioBuffer;
  msg_interrupted : bool;
  msg_outputTranscription : option string;
  msg_inputTranscription : option string
}.

(** [onmessage], lines 57-82 of the service, with the callbacks [App]
    passes to [connectGeminiLive]. *)
Definition onmessage (now : Q) (m : ServerMessage) (s : State) : State :=
  let s := match msg_audio m with
           | Some buffer => onAudioOutput now buffer s
           | None => s
           end in
  let s := if msg_interrupted m then onInterrupted s else s in
  let s := match msg_outputTranscription m with
           | Some text => onTranscription text false s
           | None => s
           end in
  match msg_inputTranscription m with
  | Some text => onTranscription text true s
  | None => s
  end.

(** ** Events *)

(** The browser learns the size of the attached stream's video and
    publishes it as [videoWidth] and [videoHeight]. *)
Definition video_loadedmetadata (w h : N) (s : State) : State :=
  match videoRef (app s) with
  | Some v => set_videoRef (Some (mkVideo (srcObject v) w h)) s
  | None => s
  end.

(** Everything that can make the component run: the two buttons, the
    settling of the two promises [startAssistance] awaits, the transport
    callbacks, the interval, the audio graph.  An event that resumes
    [startAssistance] carries the locals of the activation it resumes. *)
Inductive Event : Type :=
  | ClickStart
  | MediaGranted (stream : MediaStream)
  | MediaDenied
  | SessionOpened (render_status : AppState) (stream : MediaStream) (session : SessionId)
  | SessionFailed
  | AudioOutput (now : Q) (buffer : AudioBuffer)
  | Interrupted
  | Transcription (text : string) (isUser : bool)
  | TransportError
  | TransportClose
  | FrameTick (has2d : bool) (blob : option string)
  | AudioProcess (h : AudioProcessHandler) (inputData : list Q)
  | SourceEnded (source : NodeId)
  | ClickStop
  | VideoMetadata (width height : N).

Definition handle (e : Event) (s : State) : State :=
  match e with
  | ClickStart => startAssistance_begin s
  | MediaGranted stream => startAssistance_gotMedia stream s
  | MediaDenied => startAssistance_catch s
  | SessionOpened st stream k => startAssistance_connected st stream k s
  | SessionFailed => startAssistance_catch s
  | AudioOutput now buffer => onAudioOutput now buffer s
  | Interrupted => onInterrupted s
  | Transcription text isUser => onTranscription text isUser s
  | TransportError => onError s
  | TransportClose => onClose s
  | FrameTick has2d blob => frameTick_complete has2d blob s
  | AudioProcess h inputData => onaudioprocess h inputData s
  | SourceEnded n => source_onended n s
  | ClickStop => stopAssistance s
  | VideoMetadata w h => video_loadedmetadata w h s
  end.

Definition run (es : list Event) (s : State) : State :=
  foldl (fun s e => handle e s) s es.

(** Which events the page lets happen in a state: the start button is
    shown unless the status is Active and the stop button only then
    (lines 186-204); an interval fires only while it is live; an audio
    handler runs only once connected.  Only the ticks of the interval held
    in [frameIntervalRef] are counted: a live interval whose handle was
    overwritten fires too, so [enabled] errs on the side of fewer ticks. *)
Definition enabled (e : Event) (s : State) : bool :=
  match e with
  | ClickStart => bool_decide (status (app s) ≠ ACTIVE)
  | ClickStop => bool_decide (status (app s) = ACTIVE)
  | FrameTick _ _ =>
      match frameIntervalRef (app s) with
      | Some id => bool_decide (id ∈ timers (env s))
      | None => false
      end
  | AudioProcess h _ => bool_decide (h ∈ processors (env s))
  | SourceEnded n => bool_decide (n ∈ activeSourcesRef (app s))
  | VideoMetadata _ _ =>
      match videoRef (app s) with
      | Some v => bool_decide (is_Some (srcObject v))
      | None => false
      end
  | _ => true
  end.

(** [feasible es s]: every event of [es] is enabled when its turn comes. *)
Fixpoint feasible (es : list Event) (s : State) : bool :=
  match es with
  | [] => true
  | e :: es => enabled e s && feasible es (handle e s)
  end.

(** Delivering a sequence of chunks to [onAudioOutput], each with the
    clock reading at its arrival. *)
Definition deliver (chunks : list (Q * AudioBuffer)) (s : State) : State :=
  foldl (fun s c => onAudioOutput c.1 c.2 s) s chunks.

(** *** Concrete sessions *)

(** Half a second of audio at the output rate. *)
Definition halfSecond : AudioBuffer := mkAudioBuffer 12000 24000.

(** A session brought up from the initial state: start pressed while
    Idle, camera and microphone granted (tracks 1 and 2), video of 640 by
    480, session 1 opened. *)
Definition bringUp : list Event :=
  [ClickStart; MediaGranted [1%positive; 2%positive]; VideoMetadata 640 480;
   SessionOpened IDLE [1%positive; 2%positive] 1%positive].

Definition activeSession : State := run bringUp initial.

(** Three half-second chunks arriving back to back at clock 0. *)
Definition threeChunks : list (Q * AudioBuffer) :=
  [(0, halfSecond); (0, halfSecond); (0, halfSecond)].

(** The same session a little later: three chunks queued, the first one
    finished. *)
Definition playing : State :=
  source_onended 1%positive (deliver threeChunks activeSession).

(** A session that the far end closed while audio was queued: the status
    is Idle, but the interval, the queued sources, the cursor and the
    tracks are as they were while Active. *)
Definition closedRemotely : State :=
  run (bringUp ++ [AudioOutput 0 halfSecond; TransportClose]) initial.

(** An Active session with one chunk queued. *)
Definition oneQueued : State := deliver [(0, halfSecond)] activeSession.

(** ** Specification-level notions *)

(** The scheduling rule in the specification's words: "on each new chunk,
    startAt = max(nextStartTime, currentOutputClockTime); schedule
    playback at startAt; advance nextStartTime = startAt +
    chunk.duration".  [spec_schedule cursor chunks] lists the start time
    and buffer of each chunk, [spec_cursor cursor chunks] is the cursor
    after the last one. *)
Fixpoint spec_schedule (cursor : Q) (chunks : list (Q * AudioBuffer)) : list (Q * AudioBuffer) :=
  match chunks with
  | [] => []
  | (now, chunk) :: rest =>
      let startAt := Qmax cursor now in
      (startAt, chunk) :: spec_schedule (startAt + duration chunk) rest
  end.

Fixpoint spec_cursor (cursor : Q) (chunks : list (Q * AudioBuffer)) : Q :=
  match chunks with
  | [] => cursor
  | (now, chunk) :: rest => spec_cursor (Qmax cursor now + duration chunk) rest
  end.

(** What [started] records of one scheduled source, in the same shape. *)
Definition sch_entry (c : Scheduled) : Q * AudioBuffer := (sch_startAt c, sch_buffer c).

(** What the contract of the encoder asks of the 16-bit value [z] a sample
    [x] is stored as: it fits 16 bits; a sample at or beyond a bound of
    [-1, 1] is stored as that bound's full-scale value; a sample within
    the range is stored as its full-scale multiple rounded toward zero
    (so the stored value is within one step of the sample and has its
    sign). *)
Definition quantised (x : Q) (z : Z) : Prop :=
  (-32768 <= z <= 32767)%Z
  /\ (1 <= x -> z = 32767%Z)
  /\ (x <= -1 -> z = (-32768)%Z)
  /\ (0 <= x -> x <= 1 ->
      inject_Z z <= x * 32767 /\ x * 32767 < inject_Z z + 1)
  /\ (-1 <= x -> x < 0 ->
      x * 32768 <= inject_Z z /\ inject_Z z < x * 32768 + 1).

(** The bytes a payload carries in its [data]. *)
Definition blobFrame (m : Media) : list Byte.byte :=
  String.list_byte_of_string (media_data m).

(** The resources of a session are released: the interval of
    [frameIntervalRef] is not live, the session of [sessionRef] has been
    closed, nothing is queued for playback, the cursor is 0 and the tracks
    of the attached stream have been stopped. *)
Definition released (s : State) : Prop :=
  match frameIntervalRef (app s) with
  | Some id => id ∉ timers (env s)
  | None => True
  end
  /\ match sessionRef (app s) with
     | Some k => k ∈ closedSessions (env s)
     | None => True
     end
  /\ activeSourcesRef (app s) = ∅
  /\ nextStartTimeRef (app s) = 0
  /\ match videoRef (app s) with
     | Some v =>
         match srcObject v with
         | Some stream => list_to_set stream ⊆ endedTracks (env s)
         | None => True
         end
     | None => True
     end.

#[global] Instance Q_eq_dec : EqDecision Q.
Proof. solve_decision. Defined.

#[global] Instance released_dec (s : State) : Decision (released s).
Proof.
  unfold released.
  destruct (frameIntervalRef (app s)), (sessionRef (app s)),
    (videoRef (app s)) as [[[stream|] ? ?]|]; cbn; apply _.
Defined.

(** ** Whole runs of [startAssistance], and the status panel *)

(** [startAssistance], lines 36-132, when both promises resolve and no
    other event runs in between.  The [status] its closures see is the
    one of the state the button was pressed in. *)
Definition startAssistance_resolved (stream : MediaStream) (session : SessionId)
    (s : State) : State :=
  let render_status := status (app s) in
  let s := startAssistance_begin s in
  let s := startAssistance_gotMedia stream s in
  startAssistance_connected render_status stream session s.

(** [startAssistance] when one of the promises rejects: [getUserMedia]
    ([granted = None]) or, the stream being granted, the session promise. *)
Definition startAssistance_rejected (granted : option MediaStream) (s : State) : State :=
  let s := startAssistance_begin s in
  match granted with
  | None => startAssistance_catch s
  | Some stream => startAssistance_catch (startAssistance_gotMedia stream s)
  end.

(** The text of the "Status da IA" panel, lines 176-181: four JSX
    expressions side by side, each [cond && text], a false one rendering
    nothing; [lastTranscript || text] is the text when the transcript is
    the empty string. *)
Definition statusText (s : State) : string :=
  let when (st : AppState) (text : string) : string :=
    if decide (status (app s) = st) then text else "" in
  String.append
    (when IDLE "Toque no botão abaixo para começar a usar seu assistente.")
    (String.append
       (when CONNECTING "Estamos preparando tudo para sua segurança...")
       (String.append
          (when ACTIVE
             (if decide (lastTranscript (app s) = "")
              then "Estou observando... Mantenha o celular firme à frente."
              else lastTranscript (app s)))
          (when ERROR "Ops! Algo deu errado. Verifique sua conexão e tente novamente."))).

(** ** Notions used by the invariants *)

(** The nodes [start()] has been called on. *)
Definition started_nodes (s : State) : gset NodeId :=
  list_to_set (sch_node <$> started (env s)).

(** The part of the state the scheduler works on. *)
Definition playback_view (s : State)
    : Q * gset NodeId * gset NodeId * list Scheduled * NodeId :=
  (nextStartTimeRef (app s), activeSourcesRef (app s), stopped (env s),
   started (env s), nodeSerial (env s)).

(** The part of the state the two cadences and the session live in. *)
Definition cadence_view (s : State)
    : option SessionId * option TimerId * gset TimerId * TimerId
      * list AudioProcessHandler :=
  (sessionRef (app s), frameIntervalRef (app s), timers (env s),
   timerSerial (env s), processors (env s)).

(** Node identities in use lie below the next one to be given out, the
    active handles have been started, so have the stopped ones, and no
    active handle has been stopped. *)
Definition handles_ok (s : State) : Prop :=
  (forall n, n ∈ started_nodes s -> (n < nodeSerial (env s))%positive)
  /\ activeSourcesRef (app s) ⊆ started_nodes s
  /\ stopped (env s) ⊆ started_nodes s
  /\ activeSourcesRef (app s) ## stopped (env s).

(** Interval handles in use lie below the next one to be given out. *)
Definition timers_ok (s : State) : Prop :=
  (forall t, t ∈ timers (env s) -> (t < timerSerial (env s))%positive)
  /\ match frameIntervalRef (app s) with
     | Some id => (id < timerSerial (env s))%positive
     | None => True
     end.

(** Before any session has been stored in [sessionRef]: nothing sent, no
    interval, no audio handler. *)
Definition quiet (s : State) : Prop :=
  sent (env s) = [] /\ timers (env s) = ∅ /\ processors (env s) = []
  /\ frameIntervalRef (app s) = None.

(** The cursor and every start time so far are at or after 0. *)
Definition clock_ok (s : State) : Prop :=
  0 <= nextStartTimeRef (app s)
  /\ Forall (fun c => 0 <= sch_startAt c) (started (env s)).

(** The total duration of a sequence of chunks. *)
Definition sum_durations (chunks : list (Q * AudioBuffer)) : Q :=
  foldr (fun c acc => duration c.2 + acc) 0 chunks.

(** The transcription events of a list of (text, isUser) pairs. *)
Definition transcriptions (ts : list (string * bool)) : list Event :=
  (fun t => Transcription t.1 t.2) <$> ts.

(** The text of the last model transcript of a list, if there is one. *)
Definition last_model_transcript (ts : list (string * bool)) : option string :=
  fst <$> last (filter (fun t => t.2 = false) ts).

(** * Verification *)

(** ** Basic facts about the playback flush *)

(** A cleared interval is no longer live. *)
Lemma clearInterval_not_live (id : TimerId) (X : gset TimerId) : id ∉ X ∖ {[id]}.
Proof. rewrite elem_of_difference, elem_of_singleton. tauto. Qed.

(** [forEach(source => source.stop())] marks exactly the members of the
    set as stopped, whatever the order of the traversal. *)
Lemma forEach_source_stop (X : gset NodeId) (s : State) :
  set_fold source_stop s X = set_stopped (X ∪ stopped (env s)) s.
Proof.
  apply (set_fold_ind_L (fun r Y => r = set_stopped (Y ∪ stopped (env s)) s)).
  - destruct s as [c b]; destruct b.
    unfold set_stopped, upd_env; simpl.
    by rewrite (left_id_L ∅ (∪)).
  - intros x Y r _ ->. destruct s as [c b]; destruct b.
    unfold source_stop, set_stopped, upd_env; simpl.
    by rewrite (assoc_L (∪)).
Qed.

Lemma stopAudio_eq (s : State) :
  stopAudio s =
  set_nextStartTimeRef 0
    (set_activeSourcesRef ∅
       (set_stopped (activeSourcesRef (app s) ∪ stopped (env s)) s)).
Proof. unfold stopAudio. by rewrite forEach_source_stop. Qed.

Lemma forEach_track_stop (stream : MediaStream) (s : State) :
  foldl (fun s t => track_stop t s) s stream =
  set_endedTracks (list_to_set stream ∪ endedTracks (env s)) s.
Proof.
  revert s. induction stream as [|t stream IH]; intros s.
  - destruct s as [c b]; destruct b.
    unfold set_endedTracks, upd_env; simpl.
    by rewrite (left_id_L ∅ (∪)).
  - cbn [foldl]. rewrite IH. destruct s as [c b]; destruct b.
    unfold track_stop, set_endedTracks, upd_env; simpl.
    by rewrite (assoc_L (∪)), (comm_L (∪) (list_to_set stream)).
Qed.

(** ** The scheduler without a context *)

(** C10. When [audioContextRef.current] is null, [onAudioOutput] returns at
    once: the whole state, and with it the cursor [nextStartTimeRef], the
    active playback set and the list of started sources, is unchanged. *)
Theorem onAudioOutput_without_context (now : Q) (buffer : AudioBuffer) (s : State) :
  audioContextRef (app s) = None ->
  onAudioOutput now buffer s = s
  /\ nextStartTimeRef (app (onAudioOutput now buffer s)) = nextStartTimeRef (app s)
  /\ activeSourcesRef (app (onAudioOutput now buffer s)) = activeSourcesRef (app s)
  /\ started (env (onAudioOutput now buffer s)) = started (env s).
Proof.
  intros Hnull. unfold onAudioOutput. rewrite Hnull. auto.
Qed.

Lemma onAudioOutput_without_context_witness :
  onAudioOutput (3 # 2) (mkAudioBuffer 12000 24000) initial = initial.
Proof.
  apply (onAudioOutput_without_context (3 # 2) (mkAudioBuffer 12000 24000) initial).
  reflexivity.
Defined.

(** ** Transcripts *)

(** C7. A transcription event changes the display text only for a model
    transcript.  With [isUser = true] the handler returns the state it was
    given, and so does the transport's [onmessage] for a message that
    carries only an input transcription; with [isUser = false] the text
    becomes [lastTranscript]; in both cases the session status, every ref
    (playback cursor and active set among them) and the browser side are
    as before. *)
Theorem onTranscription_frame (text : string) (isUser : bool) (now : Q) (s : State) :
  onTranscription text true s = s
  /\ onmessage now (mkMessage None false None (Some text)) s = s
  /\ lastTranscript (app (onTranscription text false s)) = text
  /\ onmessage now (mkMessage None false (Some text) None) s
       = onTranscription text false s
  /\ (let s' := onTranscription text isUser s in
      status (app s') = status (app s)
      /\ nextStartTimeRef (app s') = nextStartTimeRef (app s)
      /\ activeSourcesRef (app s') = activeSourcesRef (app s)
      /\ sessionRef (app s') = sessionRef (app s)
      /\ frameIntervalRef (app s') = frameIntervalRef (app s)
      /\ audioContextRef (app s') = audioContextRef (app s)
      /\ videoRef (app s') = videoRef (app s)
      /\ env s' = env s).
Proof.
  repeat split; try reflexivity; destruct isUser; reflexivity.
Qed.

(** ** Interruption *)

(** The first chunk scheduled from a state whose context is set. *)
Lemma onAudioOutput_with_context (now : Q) (buffer : AudioBuffer) (s : State)
    (ctx : AudioContext) :
  audioContextRef (app s) = Some ctx ->
  let s' := onAudioOutput now buffer s in
  let startAt := Math_max (nextStartTimeRef (app s)) now in
  started (env s') = started (env s) ++ [mkScheduled (nodeSerial (env s)) buffer startAt]
  /\ nextStartTimeRef (app s') = startAt + duration buffer
  /\ activeSourcesRef (app s') = {[nodeSerial (env s)]} ∪ activeSourcesRef (app s)
  /\ audioContextRef (app s') = Some ctx
  /\ stopped (env s') = stopped (env s).
Proof.
  intros Hctx. unfold onAudioOutput. rewrite Hctx. cbn. auto.
Qed.

(** C2. After [onInterrupted], every handle that was in the active set has
    had [stop()] called on it, the active set is empty and the cursor is
    0; a chunk that arrives next, at clock reading [now], is started at
    [now], whatever the cursor was before the interruption. *)
Theorem onInterrupted_flushes (s : State) (ctx : AudioContext) (now : Q)
    (buffer : AudioBuffer) :
  audioContextRef (app s) = Some ctx ->
  0 <= now ->
  let s' := onInterrupted s in
  activeSourcesRef (app s) ⊆ stopped (env s')
  /\ activeSourcesRef (app s') = ∅
  /\ nextStartTimeRef (app s') = 0
  /\ exists c, started (env (onAudioOutput now buffer s')) = started (env s') ++ [c]
       /\ sch_buffer c = buffer
       /\ sch_startAt c == now.
Proof.
  intros Hctx Hnow s'. subst s'. unfold onInterrupted. rewrite stopAudio_eq.
  split; [|split; [|split]].
  - cbn. apply union_subseteq_l.
  - reflexivity.
  - reflexivity.
  - eexists. split; [|split].
    + eapply onAudioOutput_with_context. cbn. exact Hctx.
    + reflexivity.
    + cbn. unfold Math_max. apply Q.max_r. exact Hnow.
Qed.

Lemma onInterrupted_flushes_witness :
  let s' := onInterrupted playing in
  activeSourcesRef (app playing) ⊆ stopped (env s')
  /\ activeSourcesRef (app s') = ∅
  /\ nextStartTimeRef (app s') = 0
  /\ exists c, started (env (onAudioOutput (3 # 4) halfSecond s')) = started (env s') ++ [c]
       /\ sch_buffer c = halfSecond
       /\ sch_startAt c == 3 # 4.
Proof.
  apply (onInterrupted_flushes playing (mkAudioContext 24000) (3 # 4) halfSecond).
  - reflexivity.
  - unfold Qle; simpl; lia.
Defined.

(** The specification's scenario: the interrupt arrives while chunk 2 of 3
    is playing.  The handles of chunks 2 and 3 are stopped, the active set
    becomes empty, and the next chunk starts at the clock reading of its
    arrival. *)
Example interrupt_mid_playback :
  let s' := onInterrupted playing in
  activeSourcesRef (app playing) = {[2%positive; 3%positive]}
  /\ stopped (env s') = {[2%positive; 3%positive]}
  /\ size (activeSourcesRef (app s')) = 0%nat
  /\ sch_startAt <$> last (started (env (onAudioOutput (3 # 4) halfSecond s')))
     = Some (3 # 4).
Proof. cbv zeta. repeat split; vm_compute; reflexivity. Qed.

(** ** Stopping *)

(** [stopAssistance] in terms of its effect on each field. *)
Lemma stopAssistance_fields (s : State) :
  let s' := stopAssistance s in
  status (app s') = IDLE
  /\ lastTranscript (app s') = lastTranscript (app s)
  /\ videoRef (app s') = videoRef (app s)
  /\ canvasRef (app s') = canvasRef (app s)
  /\ audioContextRef (app s') = audioContextRef (app s)
  /\ inputAudioContextRef (app s') = inputAudioContextRef (app s)
  /\ sessionRef (app s') = sessionRef (app s)
  /\ nextStartTimeRef (app s') = 0
  /\ activeSourcesRef (app s') = ∅
  /\ frameIntervalRef (app s') = frameIntervalRef (app s)
  /\ timers (env s') = match frameIntervalRef (app s) with
                       | Some id => timers (env s) ∖ {[id]}
                       | None => timers (env s)
                       end
  /\ timerSerial (env s') = timerSerial (env s)
  /\ started (env s') = started (env s)
  /\ stopped (env s') = activeSourcesRef (app s) ∪ stopped (env s)
  /\ nodeSerial (env s') = nodeSerial (env s)
  /\ endedTracks (env s') = match videoRef (app s) with
                            | Some v =>
                                match srcObject v with
                                | Some stream => list_to_set stream ∪ endedTracks (env s)
                                | None => endedTracks (env s)
                                end
                            | None => endedTracks (env s)
                            end
  /\ closedSessions (env s') = match sessionRef (app s) with
                               | Some k => {[k]} ∪ closedSessions (env s)
                               | None => closedSessions (env s)
                               end
  /\ sent (env s') = sent (env s)
  /\ spoken (env s') = spoken (env s)
  /\ processors (env s') = processors (env s).
Proof.
  destruct s as [c b]; destruct c, b. unfold stopAssistance.
  destruct frameIntervalRef0, sessionRef0, videoRef0 as [[[stream|] w h]|];
    cbn -[stopAudio foldl]; rewrite stopAudio_eq; cbn -[foldl];
    rewrite ?forEach_track_stop; cbn; repeat split; reflexivity.
Qed.

(** C9. From any state, whatever its status, [stopAssistance] ends with
    the status Idle, the interval held by [frameIntervalRef] no longer
    live, the active playback set empty (all its former members stopped)
    and the cursor at 0. *)
Theorem stopAssistance_from_any_state (st : AppState) (s : State) :
  let s' := stopAssistance (setStatus st s) in
  status (app s') = IDLE
  /\ match frameIntervalRef (app s) with
     | Some id => id ∉ timers (env s')
     | None => timers (env s') = timers (env s)
     end
  /\ activeSourcesRef (app s') = ∅
  /\ nextStartTimeRef (app s') = 0
  /\ activeSourcesRef (app s) ⊆ stopped (env s').
Proof.
  pose proof (stopAssistance_fields (setStatus st s)) as F. cbv zeta in *.
  destruct F as (F1 & _ & _ & _ & _ & _ & _ & F8 & F9 & _ & F11 & _ & _ & F14 & _).
  rewrite F1, F8, F9, F11, F14. cbn.
  repeat split.
  - destruct (frameIntervalRef (app s)); [|reflexivity].
    apply clearInterval_not_live.
  - apply union_subseteq_l.
Qed.

(** *** When stopping changes nothing *)

Lemma State_ext (s t : State) :
  status (app s) = status (app t) ->
  lastTranscript (app s) = lastTranscript (app t) ->
  videoRef (app s) = videoRef (app t) ->
  canvasRef (app s) = canvasRef (app t) ->
  audioContextRef (app s) = audioContextRef (app t) ->
  inputAudioContextRef (app s) = inputAudioContextRef (app t) ->
  sessionRef (app s) = sessionRef (app t) ->
  nextStartTimeRef (app s) = nextStartTimeRef (app t) ->
  activeSourcesRef (app s) = activeSourcesRef (app t) ->
  frameIntervalRef (app s) = frameIntervalRef (app t) ->
  env s = env t ->
  s = t.
Proof.
  destruct s as [[] ?], t as [[] ?]; cbn; intros; subst; reflexivity.
Qed.

Lemma Browser_ext (a b : Browser) :
  timers a = timers b -> timerSerial a = timerSerial b ->
  started a = started b -> stopped a = stopped b ->
  nodeSerial a = nodeSerial b -> endedTracks a = endedTracks b ->
  closedSessions a = closedSessions b -> sent a = sent b ->
  spoken a = spoken b -> processors a = processors b ->
  a = b.
Proof.
  destruct a, b; cbn; intros; subst; reflexivity.
Qed.

Lemma stopAssistance_released (s : State) :
  status (app (stopAssistance s)) = IDLE /\ released (stopAssistance s).
Proof.
  pose proof (stopAssistance_fields s) as F. cbv zeta in F.
  destruct F as (F1 & _ & F3 & _ & _ & _ & F7 & F8 & F9 & F10 & F11 & _ & _
                 & _ & _ & F16 & F17 & _).
  split; [exact F1|]. unfold released.
  rewrite F3, F7, F8, F9, F10, F11, F16, F17.
  repeat split.
  - destruct (frameIntervalRef (app s)); [|exact I].
    apply clearInterval_not_live.
  - destruct (sessionRef (app s)); [|exact I].
    apply elem_of_union_l, elem_of_singleton. reflexivity.
  - destruct (videoRef (app s)) as [[[stream|] ? ?]|]; cbn; try exact I.
    apply union_subseteq_l.
Qed.

Lemma stopAssistance_fixes_released (s : State) :
  status (app s) = IDLE -> released s -> stopAssistance s = s.
Proof.
  intros Hidle (Ht & Hk & Ha & Hn & Hv).
  pose proof (stopAssistance_fields s) as F. cbv zeta in F.
  destruct F as (F1 & F2 & F3 & F4 & F5 & F6 & F7 & F8 & F9 & F10 & F11 & F12
                 & F13 & F14 & F15 & F16 & F17 & F18 & F19 & F20).
  apply State_ext; try congruence.
  apply Browser_ext; try congruence.
  - rewrite F11. destruct (frameIntervalRef (app s)) as [id|]; [|reflexivity].
    apply leibniz_equiv. apply set_equiv. intros x.
    rewrite elem_of_difference, elem_of_singleton.
    split; [tauto|]. intros Hx; split; [exact Hx|]. intros ->. exact (Ht Hx).
  - rewrite F14, Ha. apply (left_id_L ∅ (∪)).
  - rewrite F16. destruct (videoRef (app s)) as [[[stream|] ? ?]|]; cbn in *;
      try reflexivity.
    apply subseteq_union_1_L. exact Hv.
  - rewrite F17. destruct (sessionRef (app s)) as [k|]; [|reflexivity].
    apply subseteq_union_1_L. apply singleton_subseteq_l. exact Hk.
Qed.

Lemma stopAssistance_fixed_released (s : State) :
  stopAssistance s = s -> status (app s) = IDLE /\ released s.
Proof.
  intros H. rewrite <- H. apply stopAssistance_released.
Qed.

(** C5, as amended.  [stopAssistance] never fails and is idempotent: a
    second call straight after a first changes nothing.  A single call is
    a no-op exactly when the status is Idle and the resources are already
    released, as they are in the initial state and after any stop. *)
Theorem stopAssistance_idempotent (s : State) :
  stopAssistance (stopAssistance s) = stopAssistance s
  /\ (stopAssistance s = s <-> status (app s) = IDLE /\ released s)
  /\ stopAssistance initial = initial.
Proof.
  split; [|split].
  - apply stopAssistance_fixes_released; apply stopAssistance_released.
  - split; [apply stopAssistance_fixed_released|].
    intros [Hidle Hrel]. apply stopAssistance_fixes_released; assumption.
  - reflexivity.
Qed.

Lemma stopAssistance_idempotent_witness :
  (status (app (stopAssistance activeSession)) = IDLE
   /\ released (stopAssistance activeSession))
  /\ stopAssistance (stopAssistance activeSession) = stopAssistance activeSession.
Proof.
  assert (H : status (app (stopAssistance activeSession)) = IDLE
              /\ released (stopAssistance activeSession)).
  { split; [reflexivity|]. apply (bool_decide_unpack _). vm_compute. exact I. }
  split; [exact H|].
  exact (proj2 (proj1 (proj2 (stopAssistance_idempotent (stopAssistance activeSession)))) H).
Defined.

(** C5 as stated fails: [closedRemotely] is reached by events the page
    allows, its status is Idle, and [stopAssistance] changes it (it
    clears the interval, stops the queued source, resets the cursor and
    stops the tracks). *)
Lemma stopAssistance_idle_not_noop :
  feasible (bringUp ++ [AudioOutput 0 halfSecond; TransportClose]) initial = true
  /\ status (app closedRemotely) = IDLE
  /\ stopAssistance closedRemotely <> closedRemotely.
Proof.
  split; [vm_compute; reflexivity|]. split; [reflexivity|].
  intros H. apply (f_equal (fun s => nextStartTimeRef (app s))) in H.
  vm_compute in H. discriminate H.
Qed.

(** ** The frame cadence *)

(** C8. A tick whose encoder yields no blob is skipped in isolation: the
    [toBlob] callback returns the state it was given, so the whole tick
    does what its synchronous part does and no more; nothing is sent, the
    browser side (timers included) is untouched, status, session, interval
    handle and playback state are as before, and the next tick is enabled
    exactly as it was. *)
Theorem frame_encode_failure_isolated (has2d has2d' : bool) (blob' : option string)
    (s : State) :
  toBlob_callback None s = s
  /\ (let s' := frameTick_complete has2d None s in
      s' = (frameTick has2d s).2
      /\ sent (env s') = sent (env s)
      /\ env s' = env s
      /\ status (app s') = status (app s)
      /\ sessionRef (app s') = sessionRef (app s)
      /\ frameIntervalRef (app s') = frameIntervalRef (app s)
      /\ nextStartTimeRef (app s') = nextStartTimeRef (app s)
      /\ activeSourcesRef (app s') = activeSourcesRef (app s)
      /\ enabled (FrameTick has2d' blob') s' = enabled (FrameTick has2d' blob') s).
Proof.
  split; [reflexivity|]. cbv zeta.
  unfold frameTick_complete, frameTick.
  destruct (videoRef (app s)) as [video|], (canvasRef (app s)) as [canvas|],
    (sessionRef (app s)) as [k|] eqn:Hk, has2d; cbn; rewrite ?Hk;
    repeat split; reflexivity.
Qed.

(** A tick whose encoder does yield a blob sends it. *)
Example frame_sent_on_success :
  sent (env (frameTick_complete true (Some "/9j/4AAQ") activeSession))
  = [(1%positive, mkMedia "/9j/4AAQ" "image/jpeg")].
Proof. reflexivity. Qed.

(** ** Leaving the Active state *)

(** Neither transport callback touches anything but the status and the
    speech queue. *)
Lemma onClose_fields (s : State) :
  status (app (onClose s)) = IDLE
  /\ timers (env (onClose s)) = timers (env s)
  /\ frameIntervalRef (app (onClose s)) = frameIntervalRef (app s)
  /\ activeSourcesRef (app (onClose s)) = activeSourcesRef (app s)
  /\ nextStartTimeRef (app (onClose s)) = nextStartTimeRef (app s)
  /\ stopped (env (onClose s)) = stopped (env s)
  /\ endedTracks (env (onClose s)) = endedTracks (env s)
  /\ closedSessions (env (onClose s)) = closedSessions (env s)
  /\ processors (env (onClose s)) = processors (env s).
Proof. repeat split; reflexivity. Qed.

Lemma onError_fields (s : State) :
  status (app (onError s)) = ERROR
  /\ timers (env (onError s)) = timers (env s)
  /\ frameIntervalRef (app (onError s)) = frameIntervalRef (app s)
  /\ activeSourcesRef (app (onError s)) = activeSourcesRef (app s)
  /\ nextStartTimeRef (app (onError s)) = nextStartTimeRef (app s)
  /\ stopped (env (onError s)) = stopped (env s)
  /\ endedTracks (env (onError s)) = endedTracks (env s)
  /\ closedSessions (env (onError s)) = closedSessions (env s)
  /\ processors (env (onError s)) = processors (env s).
Proof. repeat split; reflexivity. Qed.

(** C4, evaluated on the code.  From [oneQueued] the user stop clears the
    interval, flushes playback, stops both tracks and closes the session;
    the close callback and the error callback do none of it: the interval
    stays live, the queued source stays scheduled and unstopped, the
    tracks stay open, [close()] is not called, and the next tick still
    fires and sends a frame although the status is Idle. *)
Theorem teardown_paths_do_not_converge :
  status (app oneQueued) = ACTIVE
  /\ (let s' := handle ClickStop oneQueued in
      status (app s') = IDLE
      /\ timers (env s') = ∅
      /\ activeSourcesRef (app s') = ∅
      /\ stopped (env s') = {[1%positive]}
      /\ nextStartTimeRef (app s') = 0
      /\ endedTracks (env s') = {[1%positive; 2%positive]}
      /\ closedSessions (env s') = {[1%positive]})
  /\ (let s' := handle TransportClose oneQueued in
      status (app s') = IDLE
      /\ timers (env s') = {[1%positive]}
      /\ activeSourcesRef (app s') = {[1%positive]}
      /\ stopped (env s') = ∅
      /\ nextStartTimeRef (app s') = 12000 # 24000
      /\ endedTracks (env s') = ∅
      /\ closedSessions (env s') = ∅
      /\ enabled (FrameTick true (Some "/9j/4AAQ")) s' = true
      /\ sent (env (handle (FrameTick true (Some "/9j/4AAQ")) s'))
         = [(1%positive, mkMedia "/9j/4AAQ" "image/jpeg")])
  /\ (let s' := handle TransportError oneQueued in
      status (app s') = ERROR
      /\ timers (env s') = {[1%positive]}
      /\ activeSourcesRef (app s') = {[1%positive]}
      /\ stopped (env s') = ∅
      /\ endedTracks (env s') = ∅
      /\ closedSessions (env s') = ∅
      /\ enabled (FrameTick true (Some "/9j/4AAQ")) s' = true
      /\ sent (env (handle (FrameTick true (Some "/9j/4AAQ")) s'))
         = [(1%positive, mkMedia "/9j/4AAQ" "image/jpeg")]).
Proof.
  cbv zeta. repeat split; vm_compute; reflexivity.
Qed.

(** C3 as stated fails: after the user stop the [onaudioprocess] handler
    that [startAssistance] connected is still connected and its callback
    still fires, although the status is Idle. *)
Lemma audio_handler_survives_stop :
  feasible (bringUp ++ [ClickStop; AudioProcess (mkHandler IDLE) [0]]) initial = true
  /\ status (app activeSession) = ACTIVE
  /\ status (app (handle ClickStop activeSession)) = IDLE
  /\ processors (env (handle ClickStop activeSession)) = [mkHandler IDLE]
  /\ enabled (AudioProcess (mkHandler IDLE) [0]) (handle ClickStop activeSession) = true.
Proof.
  repeat split; vm_compute; reflexivity.
Qed.

(** What [onaudioprocess] does, by the status its closure holds. *)
Lemma onaudioprocess_gate (st : AppState) (inputData : list Q) (s : State) :
  onaudioprocess (mkHandler st) inputData s =
  match st, sessionRef (app s) with
  | ACTIVE, Some k => sendRealtimeInput k (Pcm.createPcmBlob inputData) s
  | _, _ => s
  end.
Proof.
  unfold onaudioprocess. destruct (sessionRef (app s)), st; reflexivity.
Qed.

(** The start button is shown only while the status is not Active (lines
    186-204), so the [status] a handler captures from the render whose
    button was pressed is never [ACTIVE]: such a handler sends nothing. *)
Lemma handler_of_start_button_is_mute (s s2 : State) (inputData : list Q) :
  enabled ClickStart s = true ->
  onaudioprocess (mkHandler (status (app s))) inputData s2 = s2.
Proof.
  cbn. intros H%bool_decide_eq_true. rewrite onaudioprocess_gate.
  destruct (status (app s)); try reflexivity. contradiction.
Qed.

(** C3, as amended.  Only the continuation of [startAssistance] that has
    just set the status to Active starts the frame interval and connects
    the audio handler: no other event adds a timer or a handler.  The user
    stop clears the interval of [frameIntervalRef].  No event disconnects
    an audio handler; a handler sends a frame only if the status held by
    its closure is [ACTIVE] and a session is set. *)
Theorem cadences_lifecycle (e : Event) (inputData : list Q) (s : State) :
  (let s' := handle e s in
   match e with
   | SessionOpened st stream k =>
       match inputAudioContextRef (app s) with
       | Some _ =>
           status (app s') = ACTIVE
           /\ frameIntervalRef (app s') = Some (timerSerial (env s))
           /\ timers (env s') = {[timerSerial (env s)]} ∪ timers (env s)
           /\ processors (env s') = processors (env s) ++ [mkHandler st]
       | None => processors (env s') = processors (env s)
       end
   | ClickStop =>
       status (app s') = IDLE
       /\ match frameIntervalRef (app s) with
          | Some id => id ∉ timers (env s')
          | None => timers (env s') = timers (env s)
          end
       /\ processors (env s') = processors (env s)
   | _ =>
       timers (env s') ⊆ timers (env s)
       /\ processors (env s') = processors (env s)
   end)
  /\ onaudioprocess (mkHandler IDLE) inputData s = s
  /\ onaudioprocess (mkHandler CONNECTING) inputData s = s
  /\ onaudioprocess (mkHandler ERROR) inputData s = s
  /\ sent (env (onaudioprocess (mkHandler ACTIVE) inputData s))
     = match sessionRef (app s) with
       | Some k => sent (env s) ++ [(k, Pcm.createPcmBlob inputData)]
       | None => sent (env s)
       end.
Proof.
  split; [|rewrite !onaudioprocess_gate; destruct (sessionRef (app s)); auto].
  cbv zeta. destruct e; cbn [handle].
  - split; reflexivity.
  - unfold startAssistance_gotMedia. destruct (videoRef (app s)); split; reflexivity.
  - split; reflexivity.
  - unfold startAssistance_connected. cbn.
    destruct (inputAudioContextRef (app s)); cbn; auto.
  - split; reflexivity.
  - unfold onAudioOutput. destruct (audioContextRef (app s)); split; reflexivity.
  - unfold onInterrupted. rewrite stopAudio_eq. split; reflexivity.
  - destruct isUser; split; reflexivity.
  - split; reflexivity.
  - split; reflexivity.
  - unfold frameTick_complete, frameTick, toBlob_callback.
    destruct (videoRef (app s)), (canvasRef (app s)), (sessionRef (app s)) eqn:Hk,
      has2d, blob; cbn; rewrite ?Hk; split; reflexivity.
  - destruct h as [st]. rewrite onaudioprocess_gate.
    destruct st, (sessionRef (app s)); split; reflexivity.
  - split; reflexivity.
  - pose proof (stopAssistance_fields s) as F. cbv zeta in F.
    destruct F as (F1 & _ & _ & _ & _ & _ & _ & _ & _ & _ & F11 & _ & _ & _ & _
                   & _ & _ & _ & _ & F20).
    rewrite F1, F11, F20. repeat split.
    destruct (frameIntervalRef (app s)); [|reflexivity].
    apply clearInterval_not_live.
  - unfold video_loadedmetadata. destruct (videoRef (app s)); split; reflexivity.
Qed.

(** ** Gapless scheduling *)

Lemma duration_nonneg (b : AudioBuffer) : 0 <= duration b.
Proof. unfold duration, Qle; simpl. lia. Qed.

(** The code follows the rule: the sources [deliver] starts are those of
    [spec_schedule], in order, and the cursor ends at [spec_cursor]. *)
Lemma deliver_refines_spec (chunks : list (Q * AudioBuffer)) :
  forall (s : State) (ctx : AudioContext),
  audioContextRef (app s) = Some ctx ->
  exists sched : list Scheduled,
    started (env (deliver chunks s)) = started (env s) ++ sched
    /\ sch_entry <$> sched = spec_schedule (nextStartTimeRef (app s)) chunks
    /\ nextStartTimeRef (app (deliver chunks s))
       = spec_cursor (nextStartTimeRef (app s)) chunks.
Proof.
  induction chunks as [|[now chunk] rest IH]; intros s ctx Hctx.
  - exists []. cbn. rewrite app_nil_r. auto.
  - destruct (onAudioOutput_with_context now chunk s ctx Hctx)
      as (Hst & Hnext & _ & Hctx' & _).
    destruct (IH _ ctx Hctx') as (sched & Hs & Hm & Hc).
    eexists (_ :: sched). unfold deliver in *. cbn [foldl fst snd].
    rewrite Hs, Hst, <- app_assoc. split; [reflexivity|].
    rewrite Hc, Hnext. cbn. rewrite Hm, Hnext. auto.
Qed.

(** Every start time of a schedule is at or after the cursor it began
    with. *)
Lemma spec_schedule_after_cursor (chunks : list (Q * AudioBuffer)) :
  forall (cursor : Q) (k : nat) (t : Q) (b : AudioBuffer),
  spec_schedule cursor chunks !! k = Some (t, b) -> cursor <= t.
Proof.
  induction chunks as [|[now chunk] rest IH]; intros cursor k t b Hk.
  - destruct k; discriminate Hk.
  - destruct k as [|k]; cbn in Hk.
    + injection Hk as <- <-. apply Q.le_max_l.
    + apply IH in Hk.
      pose proof (Q.le_max_l cursor now). pose proof (duration_nonneg chunk). lra.
Qed.

Lemma spec_schedule_no_overlap (chunks : list (Q * AudioBuffer)) :
  forall (cursor : Q) (i j : nat) (ti tj : Q) (bi bj : AudioBuffer),
  (i < j)%nat ->
  spec_schedule cursor chunks !! i = Some (ti, bi) ->
  spec_schedule cursor chunks !! j = Some (tj, bj) ->
  ti + duration bi <= tj.
Proof.
  induction chunks as [|[now chunk] rest IH]; intros cursor i j ti tj bi bj Hij Hi Hj.
  - destruct i; discriminate Hi.
  - destruct j as [|j]; [lia|]. destruct i as [|i]; cbn in Hi, Hj.
    + injection Hi as <- <-. eapply spec_schedule_after_cursor. exact Hj.
    + eapply IH; [|exact Hi|exact Hj]. lia.
Qed.

Lemma spec_schedule_not_in_past (chunks : list (Q * AudioBuffer)) :
  forall (cursor : Q) (k : nat) (t now : Q) (b b' : AudioBuffer),
  spec_schedule cursor chunks !! k = Some (t, b) ->
  chunks !! k = Some (now, b') ->
  now <= t.
Proof.
  induction chunks as [|[now0 chunk] rest IH]; intros cursor k t now b b' Hk Hc.
  - destruct k; discriminate Hk.
  - destruct k as [|k]; cbn in Hk, Hc.
    + injection Hk as <- <-. injection Hc as <- <-. apply Q.le_max_r.
    + eapply IH; eassumption.
Qed.

(** C1. For every sequence of chunks delivered to [onAudioOutput] (with a
    context in place), each chunk is started at
    [max(nextStartTime, currentTime)] and the cursor advances to that
    start plus the chunk's duration; hence a chunk scheduled later starts
    no earlier than the end of any chunk scheduled before it, and no chunk
    starts before the clock reading at its arrival. *)
Theorem scheduling_no_overlap (s : State) (ctx : AudioContext)
    (chunks : list (Q * AudioBuffer)) :
  audioContextRef (app s) = Some ctx ->
  exists sched : list Scheduled,
    started (env (deliver chunks s)) = started (env s) ++ sched
    /\ sch_entry <$> sched = spec_schedule (nextStartTimeRef (app s)) chunks
    /\ nextStartTimeRef (app (deliver chunks s))
       = spec_cursor (nextStartTimeRef (app s)) chunks
    /\ (forall (i j : nat) (ci cj : Scheduled),
          (i < j)%nat -> sched !! i = Some ci -> sched !! j = Some cj ->
          sch_startAt ci + duration (sch_buffer ci) <= sch_startAt cj)
    /\ (forall (k : nat) (c : Scheduled) (now : Q) (b : AudioBuffer),
          sched !! k = Some c -> chunks !! k = Some (now, b) ->
          now <= sch_startAt c).
Proof.
  intros Hctx.
  destruct (deliver_refines_spec chunks s ctx Hctx) as (sched & Hs & Hm & Hc).
  exists sched. repeat split; try assumption.
  - intros i j ci cj Hij Hi Hj.
    apply (spec_schedule_no_overlap chunks (nextStartTimeRef (app s)) i j
             _ _ (sch_buffer ci) (sch_buffer cj) Hij).
    + rewrite <- Hm, list_lookup_fmap, Hi. reflexivity.
    + rewrite <- Hm, list_lookup_fmap, Hj. reflexivity.
  - intros k c now b Hk Hchunk.
    apply (spec_schedule_not_in_past chunks (nextStartTimeRef (app s)) k
             _ now (sch_buffer c) b); [|exact Hchunk].
    rewrite <- Hm, list_lookup_fmap, Hk. reflexivity.
Qed.

(** The specification's scenario: three chunks of half a second arriving
    back to back with the clock at 0 start at 0, 0.5 and 1. *)
Example three_chunks_back_to_back :
  Qred <$> (sch_startAt <$> started (env (deliver threeChunks activeSession)))
  = [0; 1 # 2; 1].
Proof. reflexivity. Qed.

Lemma scheduling_no_overlap_witness :
  exists sched : list Scheduled,
    started (env (deliver threeChunks activeSession))
      = started (env activeSession) ++ sched
    /\ sch_entry <$> sched
       = spec_schedule (nextStartTimeRef (app activeSession)) threeChunks
    /\ nextStartTimeRef (app (deliver threeChunks activeSession))
       = spec_cursor (nextStartTimeRef (app activeSession)) threeChunks
    /\ (forall (i j : nat) (ci cj : Scheduled),
          (i < j)%nat -> sched !! i = Some ci -> sched !! j = Some cj ->
          sch_startAt ci + duration (sch_buffer ci) <= sch_startAt cj)
    /\ (forall (k : nat) (c : Scheduled) (now : Q) (b : AudioBuffer),
          sched !! k = Some c -> threeChunks !! k = Some (now, b) ->
          now <= sch_startAt c).
Proof.
  apply (scheduling_no_overlap activeSession (mkAudioContext 24000) threeChunks).
  reflexivity.
Defined.

(** ** The PCM encoder *)

Lemma clamp_range (x : Q) : -1 <= Pcm.clamp x /\ Pcm.clamp x <= 1.
Proof.
  unfold Pcm.clamp. split.
  - apply Q.le_max_l.
  - apply Q.max_lub; [unfold Qle; simpl; lia | apply Q.le_min_l].
Qed.

Lemma clamp_in_range (x : Q) : -1 <= x -> x <= 1 -> Pcm.clamp x == x.
Proof.
  intros Hlo Hhi. unfold Pcm.clamp.
  rewrite (Q.min_r 1 x Hhi). apply Q.max_r. exact Hlo.
Qed.

#[global] Instance clamp_proper : Proper (Qeq ==> Qeq) Pcm.clamp.
Proof. intros x y Hxy. unfold Pcm.clamp. rewrite Hxy. reflexivity. Qed.

#[global] Instance trunc_proper : Proper (Qeq ==> eq) Pcm.trunc.
Proof.
  intros x y Hxy. unfold Pcm.trunc.
  rewrite (Qleb_comp 0 0 (Qeq_refl 0) x y Hxy).
  rewrite (Qfloor_comp x y Hxy), (Qceiling_comp x y Hxy). reflexivity.
Qed.

#[global] Instance toInt16_proper : Proper (Qeq ==> eq) Pcm.toInt16.
Proof.
  intros x y Hxy. unfold Pcm.toInt16.
  pose proof (clamp_proper x y Hxy) as Hc.
  rewrite (Qleb_comp 0 0 (Qeq_refl 0) _ _ Hc).
  destruct (Qle_bool 0 (Pcm.clamp y)); apply trunc_proper; rewrite Hc; reflexivity.
Qed.

(** A converted sample fits a signed 16-bit integer. *)
Lemma toInt16_range (x : Q) : (-32768 <= Pcm.toInt16 x <= 32767)%Z.
Proof.
  unfold Pcm.toInt16. destruct (clamp_range x) as [Hlo Hhi].
  set (c := Pcm.clamp x) in *.
  destruct (Qle_bool 0 c) eqn:Hsign.
  - apply Qle_bool_iff in Hsign. unfold Pcm.trunc.
    assert (H0 : 0 <= c * 32767) by nra.
    apply Qle_bool_iff in H0 as H0b. rewrite H0b.
    assert (H1 : c * 32767 <= inject_Z 32767) by (unfold inject_Z; nra).
    apply Qfloor_resp_le in H0, H1. rewrite Qfloor_Z in H1.
    change (Qfloor 0) with 0%Z in H0. lia.
  - assert (Hneg : c < 0).
    { apply Qnot_le_lt. intros H. apply Qle_bool_iff in H. congruence. }
    unfold Pcm.trunc.
    assert (Hb : Qle_bool 0 (c * 32768) = false).
    { destruct (Qle_bool 0 (c * 32768)) eqn:E; [|reflexivity].
      apply Qle_bool_iff in E. nra. }
    rewrite Hb.
    assert (H0 : inject_Z (-32768) <= c * 32768) by (unfold inject_Z; nra).
    assert (H1 : c * 32768 <= inject_Z 0) by (unfold inject_Z; nra).
    apply Qceiling_resp_le in H0, H1. rewrite Qceiling_Z in H0, H1. lia.
Qed.

Lemma toInt16_clamp (x : Q) : Pcm.toInt16 (Pcm.clamp x) = Pcm.toInt16 x.
Proof.
  assert (Hc : Pcm.clamp (Pcm.clamp x) == Pcm.clamp x).
  { destruct (clamp_range x). apply clamp_in_range; assumption. }
  unfold Pcm.toInt16.
  rewrite (Qleb_comp 0 0 (Qeq_refl 0) _ _ Hc).
  destruct (Qle_bool 0 (Pcm.clamp x)); apply trunc_proper; rewrite Hc; reflexivity.
Qed.

Lemma byte_of_Z_to_N (z : Z) : Z.of_N (Byte.to_N (Pcm.byte_of_Z z)) = (z mod 256)%Z.
Proof.
  unfold Pcm.byte_of_Z.
  assert (Hb : (0 <= z mod 256 < 256)%Z) by (apply Z.mod_pos_bound; lia).
  destruct (Byte.of_N (Z.to_N (z mod 256))) as [b|] eqn:E.
  - apply Byte.to_of_N in E. rewrite E. lia.
  - apply Byte.of_N_None_iff in E. lia.
Qed.

(** The two bytes of [le16] read back as the integer they came from. *)
Lemma signed16_le16 (z : Z) :
  (-32768 <= z <= 32767)%Z ->
  Pcm.signed16 (Pcm.byte_of_Z z) (Pcm.byte_of_Z (z / 256)) = z.
Proof.
  intros Hz. unfold Pcm.signed16. rewrite !byte_of_Z_to_N.
  destruct (Z.ltb_spec (z mod 256 + 256 * (z / 256 mod 256)) 32768);
    Z.div_mod_to_equations; lia.
Qed.

Lemma encodeFrame_length (samples : list Q) :
  length (Pcm.encodeFrame samples) = (2 * length samples)%nat.
Proof.
  unfold Pcm.encodeFrame. induction samples as [|x xs IH]; cbn; [reflexivity|].
  rewrite IH. lia.
Qed.

Lemma decode_encodeFrame (samples : list Q) :
  Pcm.decodeFrame (Pcm.encodeFrame samples) = Pcm.toInt16 <$> samples.
Proof.
  unfold Pcm.encodeFrame. induction samples as [|x xs IH]; cbn; [reflexivity|].
  rewrite IH, signed16_le16 by apply toInt16_range. reflexivity.
Qed.

Lemma encodeFrame_proper (xs ys : list Q) :
  Forall2 Qeq xs ys -> Pcm.encodeFrame xs = Pcm.encodeFrame ys.
Proof.
  unfold Pcm.encodeFrame. induction 1 as [|x y xs ys Hxy _ IH]; cbn; [reflexivity|].
  rewrite IH, (toInt16_proper x y Hxy). reflexivity.
Qed.

Lemma encodeFrame_silence (n : nat) :
  Pcm.encodeFrame (replicate n 0) = replicate (2 * n) Byte.x00.
Proof.
  unfold Pcm.encodeFrame. induction n as [|n IH]; [reflexivity|].
  cbn [replicate flat_map]. rewrite IH.
  replace (2 * S n)%nat with (S (S (2 * n))) by lia. reflexivity.
Qed.

Lemma toInt16_clamp_eq (x y : Q) :
  Pcm.clamp x == Pcm.clamp y -> Pcm.toInt16 x = Pcm.toInt16 y.
Proof.
  intros Hc. unfold Pcm.toInt16.
  rewrite (Qleb_comp 0 0 (Qeq_refl 0) _ _ Hc).
  destruct (Qle_bool 0 (Pcm.clamp y)); apply trunc_proper; rewrite Hc; reflexivity.
Qed.

Lemma clamp_above (x : Q) : 1 <= x -> Pcm.clamp x == 1.
Proof.
  intros Hx. unfold Pcm.clamp. rewrite (Q.min_l 1 x Hx).
  apply Q.max_r. unfold Qle; simpl; lia.
Qed.

Lemma clamp_below (x : Q) : x <= -1 -> Pcm.clamp x == -1.
Proof.
  intros Hx. unfold Pcm.clamp. apply Q.max_l.
  apply Q.min_le_iff. right. exact Hx.
Qed.

(** Within the range and at or above 0 the stored value is the floor of
    the sample times 32767. *)
Lemma toInt16_nonneg (x : Q) :
  0 <= x -> x <= 1 -> Pcm.toInt16 x = Qfloor (x * 32767).
Proof.
  intros H0 H1.
  assert (Hc : Pcm.clamp x == x) by (apply clamp_in_range; lra).
  unfold Pcm.toInt16, Pcm.trunc.
  assert (Hb : Qle_bool 0 (Pcm.clamp x) = true) by (apply Qle_bool_iff; lra).
  assert (Hb' : Qle_bool 0 (Pcm.clamp x * 32767) = true)
    by (apply Qle_bool_iff; nra).
  rewrite Hb, Hb'. apply Qfloor_comp. rewrite Hc. reflexivity.
Qed.

(** Within the range and below 0 it is the ceiling of the sample times
    32768. *)
Lemma toInt16_neg (x : Q) :
  -1 <= x -> x < 0 -> Pcm.toInt16 x = Qceiling (x * 32768).
Proof.
  intros H0 H1.
  assert (Hc : Pcm.clamp x == x) by (apply clamp_in_range; lra).
  unfold Pcm.toInt16, Pcm.trunc.
  assert (Hb : Qle_bool 0 (Pcm.clamp x) = false).
  { destruct (Qle_bool 0 (Pcm.clamp x)) eqn:E; [|reflexivity].
    apply Qle_bool_iff in E. lra. }
  assert (Hb' : Qle_bool 0 (Pcm.clamp x * 32768) = false).
  { destruct (Qle_bool 0 (Pcm.clamp x * 32768)) eqn:E; [|reflexivity].
    apply Qle_bool_iff in E. nra. }
  rewrite Hb, Hb'. apply Qceiling_comp. rewrite Hc. reflexivity.
Qed.

(** The value a sample is stored as is the one the contract asks for. *)
Lemma toInt16_quantised (x : Q) : quantised x (Pcm.toInt16 x).
Proof.
  unfold quantised. split; [apply toInt16_range|]. split; [|split; [|split]].
  - intros Hx. rewrite (toInt16_clamp_eq x 1); [reflexivity|].
    rewrite (clamp_above x Hx). symmetry. apply clamp_above. apply Qle_refl.
  - intros Hx. rewrite (toInt16_clamp_eq x (-1)); [reflexivity|].
    rewrite (clamp_below x Hx). symmetry. apply clamp_below. apply Qle_refl.
  - intros H0 H1. rewrite (toInt16_nonneg x H0 H1). split.
    + apply Qfloor_le.
    + pose proof (Qlt_floor (x * 32767)) as H.
      rewrite inject_Z_plus in H. exact H.
  - intros H0 H1. rewrite (toInt16_neg x H0 H1). split.
    + apply Qle_ceiling.
    + pose proof (Qceiling_lt (x * 32768)) as H.
      unfold Z.sub in H. rewrite inject_Z_plus in H.
      change (inject_Z (Z.opp 1)) with (Qmake (-1) 1) in H. lra.
Qed.

(** A louder sample is never stored as a smaller value. *)
Lemma toInt16_monotone (x y : Q) : x <= y -> (Pcm.toInt16 x <= Pcm.toInt16 y)%Z.
Proof.
  intros Hxy.
  destruct (Qlt_le_dec x (-1)) as [Hx|Hx].
  { pose proof (toInt16_quantised x) as (_ & _ & Hlo & _).
    rewrite Hlo by lra. apply toInt16_range. }
  destruct (Qlt_le_dec 1 y) as [Hy|Hy].
  { pose proof (toInt16_quantised y) as (_ & Hhi & _).
    rewrite Hhi by lra. apply toInt16_range. }
  destruct (Qlt_le_dec x 0) as [Hx0|Hx0], (Qlt_le_dec y 0) as [Hy0|Hy0].
  - rewrite (toInt16_neg x), (toInt16_neg y) by lra.
    apply Qceiling_resp_le. nra.
  - rewrite (toInt16_neg x), (toInt16_nonneg y) by lra.
    assert (Ha : x * 32768 <= inject_Z 0) by (unfold inject_Z; nra).
    assert (Hb : inject_Z 0 <= y * 32767) by (unfold inject_Z; nra).
    apply Qceiling_resp_le in Ha. apply Qfloor_resp_le in Hb.
    rewrite Qceiling_Z in Ha. rewrite Qfloor_Z in Hb. lia.
  - lra.
  - rewrite (toInt16_nonneg x), (toInt16_nonneg y) by lra.
    apply Qfloor_resp_le. nra.
Qed.

Lemma blobFrame_createPcmBlob (samples : list Q) :
  blobFrame (Pcm.createPcmBlob samples) = Pcm.encodeFrame samples.
Proof. apply String.list_byte_of_string_of_list_byte. Qed.

(** C6.  The encoder turns any sequence of samples into a blob with the
    fixed tag whose data is a frame of two bytes per sample, low byte
    first: read back as signed 16-bit integers, the frame has as many
    values as there were samples, and each value is its sample quantised
    (full scale, rounded toward zero, so within one step of the sample and
    of its sign), louder samples never giving smaller values.  It rejects
    nothing: a sample beyond a bound of [-1, 1] is stored as that bound,
    32767 or -32768, exactly as the clamped sample is.  It is a function
    of the sample values alone: sequences with equal samples give
    identical blobs.  Silence in gives silence out: [n] zero samples give
    [2 n] zero bytes. *)
Theorem createPcmBlob_contract (samples samples' : list Q) (n : nat) :
  Forall2 Qeq samples samples' ->
  length (blobFrame (Pcm.createPcmBlob samples)) = (2 * length samples)%nat
  /\ length (Pcm.decodeFrame (blobFrame (Pcm.createPcmBlob samples)))
     = length samples
  /\ Forall2 quantised samples
       (Pcm.decodeFrame (blobFrame (Pcm.createPcmBlob samples)))
  /\ (forall (i j : nat) (x y : Q) (zx zy : Z),
        samples !! i = Some x -> samples !! j = Some y -> x <= y ->
        Pcm.decodeFrame (blobFrame (Pcm.createPcmBlob samples)) !! i = Some zx ->
        Pcm.decodeFrame (blobFrame (Pcm.createPcmBlob samples)) !! j = Some zy ->
        (zx <= zy)%Z)
  /\ media_mimeType (Pcm.createPcmBlob samples) = Pcm.pcmMimeType
  /\ Pcm.createPcmBlob (Pcm.clamp <$> samples) = Pcm.createPcmBlob samples
  /\ Pcm.createPcmBlob samples' = Pcm.createPcmBlob samples
  /\ blobFrame (Pcm.createPcmBlob (replicate n 0)) = replicate (2 * n) Byte.x00.
Proof.
  intros Heq. rewrite !blobFrame_createPcmBlob, !decode_encodeFrame.
  split; [apply encodeFrame_length|]. split; [apply length_fmap|].
  split; [|split; [|split; [|split; [|split]]]].
  - apply Forall2_fmap_r, Forall2_same_length_lookup_2; [reflexivity|].
    intros i x y Hx Hy. rewrite Hx in Hy. injection Hy as <-.
    apply toInt16_quantised.
  - intros i j x y zx zy Hi Hj Hxy Hzx Hzy.
    rewrite list_lookup_fmap, Hi in Hzx. rewrite list_lookup_fmap, Hj in Hzy.
    injection Hzx as <-. injection Hzy as <-. apply toInt16_monotone, Hxy.
  - reflexivity.
  - unfold Pcm.createPcmBlob. f_equal. f_equal. unfold Pcm.encodeFrame.
    clear Heq. induction samples as [|x xs IH]; cbn; [reflexivity|].
    rewrite toInt16_clamp. f_equal. f_equal. exact IH.
  - unfold Pcm.createPcmBlob. rewrite (encodeFrame_proper samples samples' Heq).
    reflexivity.
  - apply encodeFrame_silence.
Qed.

(** The contract at a sequence with samples inside the range, at its
    bounds and beyond them, against the same samples written with other
    numerators and denominators. *)
Lemma createPcmBlob_contract_witness :
  Forall2 quantised [0; 1 # 2; -1; 1; 5 # 2; -3; -(1 # 3)]
    (Pcm.decodeFrame
       (blobFrame (Pcm.createPcmBlob [0; 1 # 2; -1; 1; 5 # 2; -3; -(1 # 3)])))
  /\ Pcm.createPcmBlob [0; 2 # 4; -1; 3 # 3; 10 # 4; -6 # 2; -(2 # 6)]
     = Pcm.createPcmBlob [0; 1 # 2; -1; 1; 5 # 2; -3; -(1 # 3)].
Proof.
  assert (Heq : Forall2 Qeq [0; 1 # 2; -1; 1; 5 # 2; -3; -(1 # 3)]
                  [0; 2 # 4; -1; 3 # 3; 10 # 4; -6 # 2; -(2 # 6)]).
  { repeat constructor; reflexivity. }
  destruct (createPcmBlob_contract [0; 1 # 2; -1; 1; 5 # 2; -3; -(1 # 3)]
              [0; 2 # 4; -1; 3 # 3; 10 # 4; -6 # 2; -(2 # 6)] 3 Heq)
    as (_ & _ & Hq & _ & _ & _ & Hdet & _).
  split; [exact Hq | exact Hdet].
Defined.

(** What that witness's frame reads back as. *)
Example createPcmBlob_values :
  Pcm.decodeFrame
    (blobFrame (Pcm.createPcmBlob [0; 1 # 2; -1; 1; 5 # 2; -3; -(1 # 3)]))
  = [0; 16383; -32768; 32767; 32767; -32768; -10922]%Z.
Proof. reflexivity. Qed.

(** The bounds and the middle of the range, and two samples outside it. *)
Example toInt16_values :
  Pcm.toInt16 <$> [0; 1; -1; 1 # 2; -(1 # 2); 5 # 2; -3] =
  [0; 32767; -32768; 16383; -16384; 32767; -32768]%Z.
Proof. reflexivity. Qed.

Example encodeFrame_bytes :
  Pcm.encodeFrame [1; -1; 1 # 2]
  = [Byte.xff; Byte.x7f; Byte.x00; Byte.x80; Byte.xff; Byte.x3f].
Proof. reflexivity. Qed.

(** * Further properties of the code *)

(** Unfolding the handlers, the setters and the projections, and nothing
    of the finite sets they carry. *)
Ltac reduce_state :=
  unfold startAssistance_resolved, startAssistance_rejected,
    startAssistance_connected, startAssistance_gotMedia, startAssistance_begin,
    startAssistance_catch, onClose, onError, setInterval, clearInterval,
    session_close, speak, source_stop, source_start, createBufferSource,
    sendRealtimeInput, track_stop, source_onended, video_loadedmetadata,
    setStatus, setLastTranscript, set_videoRef, set_canvasRef,
    set_audioContextRef, set_inputAudioContextRef, set_sessionRef,
    set_nextStartTimeRef, set_activeSourcesRef, set_frameIntervalRef, set_timers,
    set_timerSerial, set_started, set_stopped, set_nodeSerial, set_endedTracks,
    set_closedSessions, set_sent, set_spoken, set_processors, upd_app, upd_env,
    playback_view, cadence_view;
  cbn beta iota zeta delta
    [app env status lastTranscript videoRef canvasRef audioContextRef
     inputAudioContextRef sessionRef nextStartTimeRef activeSourcesRef
     frameIntervalRef timers timerSerial started stopped nodeSerial endedTracks
     closedSessions sent spoken processors srcObject videoWidth videoHeight].

Tactic Notation "reduce_state" "in" hyp(H) :=
  unfold startAssistance_resolved, startAssistance_rejected,
    startAssistance_connected, startAssistance_gotMedia, startAssistance_begin,
    startAssistance_catch, onClose, onError, setInterval, clearInterval,
    session_close, speak, source_stop, source_start, createBufferSource,
    sendRealtimeInput, track_stop, source_onended, video_loadedmetadata,
    setStatus, setLastTranscript, set_videoRef, set_canvasRef,
    set_audioContextRef, set_inputAudioContextRef, set_sessionRef,
    set_nextStartTimeRef, set_activeSourcesRef, set_frameIntervalRef, set_timers,
    set_timerSerial, set_started, set_stopped, set_nodeSerial, set_endedTracks,
    set_closedSessions, set_sent, set_spoken, set_processors, upd_app, upd_env,
    playback_view, cadence_view in H;
  cbn beta iota zeta delta
    [app env status lastTranscript videoRef canvasRef audioContextRef
     inputAudioContextRef sessionRef nextStartTimeRef activeSourcesRef
     frameIntervalRef timers timerSerial started stopped nodeSerial endedTracks
     closedSessions sent spoken processors srcObject videoWidth videoHeight] in H.

(** ** What each event does to the scheduler's state *)

Lemma handle_playback (e : Event) (s : State) :
  playback_view (handle e s) =
  match e with
  | AudioOutput now buffer =>
      match audioContextRef (app s) with
      | Some _ =>
          (Math_max (nextStartTimeRef (app s)) now + duration buffer,
           {[nodeSerial (env s)]} ∪ activeSourcesRef (app s),
           stopped (env s),
           started (env s)
             ++ [mkScheduled (nodeSerial (env s)) buffer
                   (Math_max (nextStartTimeRef (app s)) now)],
           Pos.succ (nodeSerial (env s)))
      | None => playback_view s
      end
  | Interrupted | ClickStop =>
      (0, ∅, activeSourcesRef (app s) ∪ stopped (env s), started (env s),
       nodeSerial (env s))
  | SourceEnded n =>
      (nextStartTimeRef (app s), activeSourcesRef (app s) ∖ {[n]},
       stopped (env s), started (env s), nodeSerial (env s))
  | _ => playback_view s
  end.
Proof.
  destruct e; cbn [handle]; try reflexivity.
  - unfold startAssistance_gotMedia. destruct (videoRef (app s)); reflexivity.
  - unfold startAssistance_connected. cbn.
    destruct (inputAudioContextRef (app s)); reflexivity.
  - unfold onAudioOutput. destruct (audioContextRef (app s)); reflexivity.
  - unfold onInterrupted. rewrite stopAudio_eq. reflexivity.
  - destruct isUser; reflexivity.
  - unfold frameTick_complete, frameTick, toBlob_callback.
    destruct (videoRef (app s)), (canvasRef (app s)), (sessionRef (app s)) eqn:Hk,
      has2d, blob; cbn; rewrite ?Hk; reflexivity.
  - destruct h as [st]. rewrite onaudioprocess_gate.
    destruct st, (sessionRef (app s)); reflexivity.
  - pose proof (stopAssistance_fields s) as F. cbv zeta in F.
    destruct F as (_ & _ & _ & _ & _ & _ & _ & F8 & F9 & _ & _ & _ & F13 & F14
                   & F15 & _).
    unfold playback_view. rewrite F8, F9, F13, F14, F15. reflexivity.
  - unfold video_loadedmetadata. destruct (videoRef (app s)); reflexivity.
Qed.

Lemma handle_cadence (e : Event) (s : State) :
  cadence_view (handle e s) =
  match e with
  | SessionOpened st stream k =>
      (Some k, Some (timerSerial (env s)),
       {[timerSerial (env s)]} ∪ timers (env s), Pos.succ (timerSerial (env s)),
       match inputAudioContextRef (app s) with
       | Some _ => processors (env s) ++ [mkHandler st]
       | None => processors (env s)
       end)
  | ClickStop =>
      (sessionRef (app s), frameIntervalRef (app s),
       match frameIntervalRef (app s) with
       | Some id => timers (env s) ∖ {[id]}
       | None => timers (env s)
       end,
       timerSerial (env s), processors (env s))
  | _ => cadence_view s
  end.
Proof.
  destruct e; cbn [handle]; try reflexivity.
  - unfold startAssistance_gotMedia. destruct (videoRef (app s)); reflexivity.
  - unfold startAssistance_connected. cbn.
    destruct (inputAudioContextRef (app s)); reflexivity.
  - unfold onAudioOutput. destruct (audioContextRef (app s)); reflexivity.
  - unfold onInterrupted. rewrite stopAudio_eq. reflexivity.
  - destruct isUser; reflexivity.
  - unfold frameTick_complete, frameTick, toBlob_callback.
    destruct (videoRef (app s)), (canvasRef (app s)), (sessionRef (app s)) eqn:Hk,
      has2d, blob; cbn; rewrite ?Hk; reflexivity.
  - destruct h as [st]. rewrite onaudioprocess_gate.
    destruct st, (sessionRef (app s)); reflexivity.
  - pose proof (stopAssistance_fields s) as F. cbv zeta in F.
    destruct F as (_ & _ & _ & _ & _ & _ & F7 & _ & _ & F10 & F11 & F12 & _ & _
                   & _ & _ & _ & _ & _ & F20).
    unfold cadence_view. rewrite F7, F10, F11, F12, F20. reflexivity.
  - unfold video_loadedmetadata. destruct (videoRef (app s)); reflexivity.
Qed.

(** A property kept by every handler holds after every sequence of
    events. *)
Lemma run_invariant (P : State -> Prop) :
  (forall e s, P s -> P (handle e s)) ->
  forall es s, P s -> P (run es s).
Proof.
  intros Hstep es. induction es as [|e es IH]; intros s Hs; [exact Hs|].
  apply IH, Hstep, Hs.
Qed.

Lemma handle_sent (e : Event) (s : State) :
  sent (env (handle e s)) =
  match e with
  | FrameTick has2d blob =>
      match videoRef (app s), canvasRef (app s), sessionRef (app s), has2d, blob with
      | Some _, Some _, Some k, true, Some base64 =>
          sent (env s) ++ [(k, mkMedia base64 "image/jpeg")]
      | _, _, _, _, _ => sent (env s)
      end
  | AudioProcess h inputData =>
      match cl_status h, sessionRef (app s) with
      | ACTIVE, Some k => sent (env s) ++ [(k, Pcm.createPcmBlob inputData)]
      | _, _ => sent (env s)
      end
  | _ => sent (env s)
  end.
Proof.
  destruct e; cbn [handle]; try reflexivity.
  - unfold startAssistance_gotMedia. destruct (videoRef (app s)); reflexivity.
  - unfold startAssistance_connected. cbn.
    destruct (inputAudioContextRef (app s)); reflexivity.
  - unfold onAudioOutput. destruct (audioContextRef (app s)); reflexivity.
  - unfold onInterrupted. rewrite stopAudio_eq. reflexivity.
  - destruct isUser; reflexivity.
  - unfold frameTick_complete, frameTick, toBlob_callback.
    destruct (videoRef (app s)), (canvasRef (app s)), (sessionRef (app s)) eqn:Hk,
      has2d, blob; cbn; rewrite ?Hk; reflexivity.
  - destruct h as [st]. rewrite onaudioprocess_gate.
    destruct st, (sessionRef (app s)); reflexivity.
  - pose proof (stopAssistance_fields s) as F. cbv zeta in F.
    destruct F as (_ & _ & _ & _ & _ & _ & _ & _ & _ & _ & _ & _ & _ & _
                   & _ & _ & _ & F18 & _).
    exact F18.
  - unfold video_loadedmetadata. destruct (videoRef (app s)); reflexivity.
Qed.

(** ** Invariants of the playback handles *)

Lemma view_eq {A B C D E : Type} (a a' : A) (b b' : B) (c c' : C) (d d' : D)
    (e e' : E) :
  (a, b, c, d, e) = (a', b', c', d', e') ->
  a = a' /\ b = b' /\ c = c' /\ d = d' /\ e = e'.
Proof. intros H. inversion H. auto. Qed.

Lemma started_nodes_snoc (l : list Scheduled) (c : Scheduled) :
  list_to_set (C := gset NodeId) (sch_node <$> l ++ [c])
  = list_to_set (sch_node <$> l) ∪ {[sch_node c]}.
Proof.
  rewrite fmap_app, list_to_set_app_L. cbn. by rewrite (right_id_L ∅ (∪)).
Qed.

Lemma handles_ok_step (e : Event) (s : State) :
  handles_ok s -> handles_ok (handle e s).
Proof.
  intros (Hf & Ha & Hs & Hd).
  pose proof (handle_playback e s) as V. unfold playback_view in V.
  assert (Hsame : (nextStartTimeRef (app (handle e s)),
                   activeSourcesRef (app (handle e s)), stopped (env (handle e s)),
                   started (env (handle e s)), nodeSerial (env (handle e s)))
                  = (nextStartTimeRef (app s), activeSourcesRef (app s),
                     stopped (env s), started (env s), nodeSerial (env s))
                  -> handles_ok (handle e s)).
  { intros E. apply view_eq in E as (_ & E2 & E3 & E4 & E5). unfold handles_ok, started_nodes.
    rewrite E2, E3, E4, E5. auto. }
  destruct e; try (apply Hsame; exact V); cbn [handle] in *.
  - destruct (audioContextRef (app s)); [|apply Hsame; exact V].
    apply view_eq in V as (_ & E2 & E3 & E4 & E5). unfold handles_ok, started_nodes in *.
    rewrite E2, E3, E4, E5, started_nodes_snoc. cbn [sch_node].
    split; [|split; [|split]].
    + intros n [Hn| ->%elem_of_singleton]%elem_of_union.
      * apply Pos.lt_lt_succ, Hf, Hn.
      * apply Pos.lt_succ_diag_r.
    + intros n [->%elem_of_singleton|Hn]%elem_of_union.
      * apply elem_of_union_r, elem_of_singleton. reflexivity.
      * apply elem_of_union_l, Ha, Hn.
    + intros n Hn. apply elem_of_union_l, Hs, Hn.
    + apply elem_of_disjoint. intros n [->%elem_of_singleton|Hn]%elem_of_union Hst.
      * apply Hs, Hf in Hst. exact (Pos.lt_irrefl _ Hst).
      * exact (proj1 (elem_of_disjoint _ _) Hd n Hn Hst).
  - apply view_eq in V as (_ & E2 & E3 & E4 & E5). unfold handles_ok, started_nodes in *.
    rewrite E2, E3, E4, E5. split; [|split; [|split]]; try assumption.
    + apply empty_subseteq.
    + apply union_least; assumption.
    + apply disjoint_empty_l.
  - apply view_eq in V as (_ & E2 & E3 & E4 & E5). unfold handles_ok, started_nodes in *.
    rewrite E2, E3, E4, E5. split; [|split; [|split]]; try assumption.
    + intros n [Hn _]%elem_of_difference. apply Ha, Hn.
    + apply elem_of_disjoint. intros n [Hn _]%elem_of_difference.
      exact (proj1 (elem_of_disjoint _ _) Hd n Hn).
  - apply view_eq in V as (_ & E2 & E3 & E4 & E5). unfold handles_ok, started_nodes in *.
    rewrite E2, E3, E4, E5. split; [|split; [|split]]; try assumption.
    + apply empty_subseteq.
    + apply union_least; assumption.
    + apply disjoint_empty_l.
Qed.

Lemma handles_ok_initial : handles_ok initial.
Proof.
  unfold handles_ok, started_nodes.
  change (started (env initial)) with (@nil Scheduled).
  change (activeSourcesRef (app initial)) with (∅ : gset NodeId).
  change (stopped (env initial)) with (∅ : gset NodeId).
  rewrite fmap_nil, list_to_set_nil. split; [|split; [|split]].
  - intros n Hn. exfalso. exact (not_elem_of_empty n Hn).
  - apply empty_subseteq.
  - apply empty_subseteq.
  - apply disjoint_empty_l.
Qed.

(** X1.  In every state reached from the initial one, whatever the events,
    the active set holds only sources that have been started, [stop()] has
    only ever been called on started sources, and no source of the active
    set has been stopped: the flush never calls [stop()] on a source that
    was not started, nor twice on the same source. *)
Theorem active_handles_started_not_stopped (es : list Event) :
  let s := run es initial in
  activeSourcesRef (app s) ⊆ started_nodes s
  /\ stopped (env s) ⊆ started_nodes s
  /\ activeSourcesRef (app s) ## stopped (env s)
  /\ stopped (env (stopAudio s)) ∖ stopped (env s) = activeSourcesRef (app s).
Proof.
  cbv zeta.
  destruct (run_invariant handles_ok handles_ok_step es initial handles_ok_initial)
    as (_ & Ha & Hs & Hd).
  split; [|split; [|split]]; try assumption.
  rewrite stopAudio_eq. cbn. apply leibniz_equiv, set_equiv. intros n.
  rewrite elem_of_difference, elem_of_union. split.
  - intros [[Hn|Hn] Hnot]; [exact Hn | contradiction].
  - intros Hn. split; [left; exact Hn|].
    exact (proj1 (elem_of_disjoint _ _) Hd n Hn).
Qed.

(** ** The cursor *)

Lemma clock_ok_step (e : Event) (s : State) : clock_ok s -> clock_ok (handle e s).
Proof.
  intros [Hc Hst].
  pose proof (handle_playback e s) as V. unfold playback_view in V.
  assert (Hsame : (nextStartTimeRef (app (handle e s)),
                   activeSourcesRef (app (handle e s)), stopped (env (handle e s)),
                   started (env (handle e s)), nodeSerial (env (handle e s)))
                  = (nextStartTimeRef (app s), activeSourcesRef (app s),
                     stopped (env s), started (env s), nodeSerial (env s))
                  -> clock_ok (handle e s)).
  { intros E. apply view_eq in E as (E1 & _ & _ & E4 & _). unfold clock_ok. rewrite E1, E4. auto. }
  destruct e; try (apply Hsame; exact V); cbn [handle] in *.
  - destruct (audioContextRef (app s)); [|apply Hsame; exact V].
    apply view_eq in V as (E1 & _ & _ & E4 & _). unfold clock_ok. rewrite E1, E4.
    pose proof (Q.le_max_l (nextStartTimeRef (app s)) now) as Hmax.
    pose proof (duration_nonneg buffer) as Hdur. unfold Math_max.
    split; [lra|]. apply Forall_app. split; [exact Hst|].
    constructor; [cbn; lra | constructor].
  - apply view_eq in V as (E1 & _ & _ & E4 & _). unfold clock_ok. rewrite E1, E4.
    split; [apply Qle_refl | exact Hst].
  - apply view_eq in V as (E1 & _ & _ & E4 & _). unfold clock_ok. rewrite E1, E4.
    split; [exact Hc | exact Hst].
  - apply view_eq in V as (E1 & _ & _ & E4 & _). unfold clock_ok. rewrite E1, E4.
    split; [apply Qle_refl | exact Hst].
Qed.

(** X2.  In every state reached from the initial one the cursor is at or
    after 0, and so is the start time of every source ever started,
    whatever clock readings (negative ones too) the chunks came with. *)
Theorem cursor_and_starts_nonnegative (es : list Event) :
  let s := run es initial in
  0 <= nextStartTimeRef (app s)
  /\ Forall (fun c => 0 <= sch_startAt c) (started (env s)).
Proof.
  apply (run_invariant clock_ok clock_ok_step es initial).
  split; [apply Qle_refl | constructor].
Qed.

(** X3.  Only the flush moves the cursor back: [onInterrupted] and
    [stopAssistance] set it to 0, and after any other event it is at or
    after where it was ([startAssistance] included, which does not reset
    it). *)
Theorem cursor_moves_back_only_on_flush (e : Event) (s : State) :
  match e with
  | Interrupted | ClickStop => nextStartTimeRef (app (handle e s)) = 0
  | _ => nextStartTimeRef (app s) <= nextStartTimeRef (app (handle e s))
  end.
Proof.
  pose proof (handle_playback e s) as V. unfold playback_view in V.
  destruct e; cbn [handle] in *;
    try (apply view_eq in V as (-> & _); try apply Qle_refl; reflexivity).
  destruct (audioContextRef (app s)); apply view_eq in V as (-> & _);
    [|apply Qle_refl].
  pose proof (Q.le_max_l (nextStartTimeRef (app s)) now).
  pose proof (duration_nonneg buffer). unfold Math_max. lra.
Qed.

(** ** Before the session, and across a restart *)

Lemma quiet_step (e : Event) (s : State) :
  (sessionRef (app s) = None -> quiet s) ->
  sessionRef (app (handle e s)) = None -> quiet (handle e s).
Proof.
  intros Hq Hnone.
  pose proof (handle_cadence e s) as V. unfold cadence_view in V.
  pose proof (handle_sent e s) as S.
  assert (Hsame : (sessionRef (app (handle e s)), frameIntervalRef (app (handle e s)),
                   timers (env (handle e s)), timerSerial (env (handle e s)),
                   processors (env (handle e s)))
                  = (sessionRef (app s), frameIntervalRef (app s), timers (env s),
                     timerSerial (env s), processors (env s))
                  -> sent (env (handle e s)) = sent (env s)
                  -> quiet (handle e s)).
  { intros E Es. apply view_eq in E as (E1 & E2 & E3 & _ & E5).
    rewrite E1 in Hnone. destruct (Hq Hnone) as (Q1 & Q2 & Q3 & Q4).
    unfold quiet. rewrite Es, E2, E3, E5. auto. }
  destruct e; try (apply Hsame; [exact V | exact S]); cbn [handle] in *.
  - apply view_eq in V as (E1 & _). rewrite E1 in Hnone. discriminate Hnone.
  - apply Hsame; [exact V|]. rewrite S.
    apply view_eq in V as (E1 & _). rewrite E1 in Hnone. rewrite Hnone.
    destruct (videoRef (app s)), (canvasRef (app s)); reflexivity.
  - apply Hsame; [exact V|]. rewrite S.
    apply view_eq in V as (E1 & _). rewrite E1 in Hnone. rewrite Hnone.
    destruct (cl_status h); reflexivity.
  - apply view_eq in V as (E1 & E2 & E3 & _ & E5).
    rewrite E1 in Hnone. destruct (Hq Hnone) as (Q1 & Q2 & Q3 & Q4).
    unfold quiet. rewrite S, E2, E3, E5, Q4. auto.
Qed.

(** X4.  As long as no session has been stored in [sessionRef], nothing
    has been sent, no interval is live or held in [frameIntervalRef], and
    no audio handler is connected, whatever events have occurred: frame
    ticks, audio-process events, stops, errors. *)
Theorem nothing_runs_before_a_session (es : list Event) :
  sessionRef (app (run es initial)) = None ->
  sent (env (run es initial)) = []
  /\ timers (env (run es initial)) = ∅
  /\ processors (env (run es initial)) = []
  /\ frameIntervalRef (app (run es initial)) = None.
Proof.
  apply (run_invariant (fun s => sessionRef (app s) = None -> quiet s)).
  - intros e s. apply quiet_step.
  - intros _. repeat split; reflexivity.
Qed.

Lemma nothing_runs_before_a_session_witness :
  let es := [ClickStart; MediaGranted [1%positive; 2%positive];
             FrameTick true (Some "/9j/4AAQ");
             AudioProcess (mkHandler ACTIVE) [1 # 2]; ClickStop; TransportError] in
  sent (env (run es initial)) = []
  /\ timers (env (run es initial)) = ∅
  /\ processors (env (run es initial)) = []
  /\ frameIntervalRef (app (run es initial)) = None.
Proof.
  cbv zeta. apply nothing_runs_before_a_session. reflexivity.
Defined.

Lemma timers_ok_step (e : Event) (s : State) : timers_ok s -> timers_ok (handle e s).
Proof.
  intros [Ht Hf].
  pose proof (handle_cadence e s) as V. unfold cadence_view in V.
  destruct e; cbn [handle] in *; apply view_eq in V as (_ & E2 & E3 & E4 & _);
    unfold timers_ok; rewrite E2, E3, E4; try (split; assumption).
  - split.
    + intros t [->%elem_of_singleton|Hin]%elem_of_union.
      * apply Pos.lt_succ_diag_r.
      * apply Pos.lt_lt_succ, Ht, Hin.
    + apply Pos.lt_succ_diag_r.
  - split; [|exact Hf].
    destruct (frameIntervalRef (app s)) as [id|]; [|exact Ht].
    intros x [Hin _]%elem_of_difference. apply Ht, Hin.
Qed.

Lemma timers_ok_run (es : list Event) : timers_ok (run es initial).
Proof.
  apply (run_invariant timers_ok timers_ok_step).
  split; [|exact I]. intros t Hin. exfalso. exact (not_elem_of_empty t Hin).
Qed.

(** X5.  A restart orphans a running interval.  If, in a state reached
    from the initial one, [frameIntervalRef] holds a live interval (as it
    does after the far end closed or failed the session), the next
    successful connect overwrites the ref without clearing it: the old
    interval stays live, and a later [stopAssistance] clears only the new
    one. *)
Theorem restart_orphans_interval (es : list Event) (st : AppState)
    (stream : MediaStream) (k : SessionId) (id : TimerId) :
  frameIntervalRef (app (run es initial)) = Some id ->
  id ∈ timers (env (run es initial)) ->
  let s1 := startAssistance_connected st stream k (run es initial) in
  frameIntervalRef (app s1) <> Some id
  /\ id ∈ timers (env s1)
  /\ id ∈ timers (env (stopAssistance s1)).
Proof.
  intros Hid Hlive s1. subst s1. set (s := run es initial) in *.
  destruct (timers_ok_run es) as [Ht _]. fold s in Ht.
  assert (Hne : id <> timerSerial (env s)).
  { intros ->. exact (Pos.lt_irrefl _ (Ht _ Hlive)). }
  pose proof (handle_cadence (SessionOpened st stream k) s) as V.
  cbn [handle] in V. unfold cadence_view in V.
  apply view_eq in V as (_ & E2 & E3 & _ & _).
  pose proof (handle_cadence ClickStop (startAssistance_connected st stream k s)) as W.
  cbn [handle] in W. unfold cadence_view in W.
  apply view_eq in W as (_ & _ & W3 & _ & _).
  rewrite W3, E2, E3. split; [|split].
  - intros [= H]. exact (Hne (eq_sym H)).
  - apply elem_of_union_r, Hlive.
  - apply elem_of_difference. split; [apply elem_of_union_r, Hlive|].
    intros Hin%elem_of_singleton. exact (Hne Hin).
Qed.

Lemma restart_orphans_interval_witness :
  let es := bringUp ++ [TransportClose; ClickStart;
                        MediaGranted [3%positive; 4%positive]] in
  let s1 := startAssistance_connected IDLE [3%positive; 4%positive] 2%positive
              (run es initial) in
  frameIntervalRef (app s1) <> Some 1%positive
  /\ 1%positive ∈ timers (env s1)
  /\ 1%positive ∈ timers (env (stopAssistance s1)).
Proof.
  cbv zeta.
  apply (restart_orphans_interval
           (bringUp ++ [TransportClose; ClickStart;
                        MediaGranted [3%positive; 4%positive]])
           IDLE [3%positive; 4%positive] 2%positive 1%positive).
  - vm_compute. reflexivity.
  - apply (bool_decide_unpack _). vm_compute. exact I.
Defined.

(** ** Gapless playback *)

Lemma spec_schedule_length (chunks : list (Q * AudioBuffer)) :
  forall cursor : Q, length (spec_schedule cursor chunks) = length chunks.
Proof.
  induction chunks as [|[now chunk] rest IH]; intros cursor; cbn; [reflexivity|].
  by rewrite IH.
Qed.

Lemma sum_durations_cons (now : Q) (chunk : AudioBuffer) (rest : list (Q * AudioBuffer)) :
  sum_durations ((now, chunk) :: rest) = duration chunk + sum_durations rest.
Proof. reflexivity. Qed.

Lemma spec_schedule_gapless (chunks : list (Q * AudioBuffer)) :
  forall cursor : Q,
  Forall (fun c => c.1 <= cursor) chunks ->
  (forall (k : nat) (t : Q) (b : AudioBuffer),
     spec_schedule cursor chunks !! k = Some (t, b) ->
     t == cursor + sum_durations (take k chunks))
  /\ spec_cursor cursor chunks == cursor + sum_durations chunks.
Proof.
  induction chunks as [|[now chunk] rest IH]; intros cursor Hall.
  - split; [intros k t b Hk; destruct k; discriminate Hk|]. cbn. lra.
  - apply Forall_cons in Hall as [Hnow Hrest]. cbn [fst] in Hnow.
    pose proof (Q.max_l cursor now Hnow) as Hmax.
    pose proof (duration_nonneg chunk) as Hdur.
    destruct (IH (Qmax cursor now + duration chunk)) as [IHk IHc].
    { eapply Forall_impl; [exact Hrest|]. cbn. intros c Hc. lra. }
    split.
    + intros [|k] t b Hk; cbn in Hk.
      * injection Hk as <- <-. cbn. lra.
      * apply IHk in Hk. cbn [take]. rewrite sum_durations_cons. lra.
    + cbn [spec_cursor]. rewrite sum_durations_cons. lra.
Qed.

(** X6.  Chunks that arrive on time play gaplessly: if every chunk arrives
    with a clock reading at or before the cursor as it stood when the
    first one came, the k-th chunk starts exactly at that cursor plus the
    durations of the chunks before it, and the cursor ends at that cursor
    plus the total duration. *)
Theorem on_time_chunks_play_gapless (s : State) (ctx : AudioContext)
    (chunks : list (Q * AudioBuffer)) :
  audioContextRef (app s) = Some ctx ->
  Forall (fun c => c.1 <= nextStartTimeRef (app s)) chunks ->
  exists sched : list Scheduled,
    started (env (deliver chunks s)) = started (env s) ++ sched
    /\ length sched = length chunks
    /\ (forall (k : nat) (c : Scheduled),
          sched !! k = Some c ->
          sch_startAt c == nextStartTimeRef (app s) + sum_durations (take k chunks))
    /\ nextStartTimeRef (app (deliver chunks s))
       == nextStartTimeRef (app s) + sum_durations chunks.
Proof.
  intros Hctx Hall.
  destruct (deliver_refines_spec chunks s ctx Hctx) as (sched & Hs & Hm & Hc).
  destruct (spec_schedule_gapless chunks _ Hall) as [Hk Hcur].
  exists sched. split; [exact Hs|]. split; [|split].
  - rewrite <- (length_fmap sch_entry), Hm. apply spec_schedule_length.
  - intros k c Hc'. apply (Hk k _ (sch_buffer c)).
    rewrite <- Hm, list_lookup_fmap, Hc'. reflexivity.
  - rewrite Hc. exact Hcur.
Qed.

Lemma on_time_chunks_play_gapless_witness :
  exists sched : list Scheduled,
    started (env (deliver threeChunks activeSession))
      = started (env activeSession) ++ sched
    /\ length sched = length threeChunks
    /\ (forall (k : nat) (c : Scheduled),
          sched !! k = Some c ->
          sch_startAt c
          == nextStartTimeRef (app activeSession) + sum_durations (take k threeChunks))
    /\ nextStartTimeRef (app (deliver threeChunks activeSession))
       == nextStartTimeRef (app activeSession) + sum_durations threeChunks.
Proof.
  apply (on_time_chunks_play_gapless activeSession (mkAudioContext 24000) threeChunks).
  - reflexivity.
  - repeat constructor; vm_compute; discriminate.
Defined.

(** ** How the flush, the completion handler and the stop compose *)

Lemma empty_minus (n : NodeId) : (∅ : gset NodeId) ∖ {[n]} = ∅.
Proof. apply subseteq_empty_difference_L, empty_subseteq. Qed.

(** [stopAudio] in terms of its effect on each field. *)
Lemma stopAudio_fields (s : State) :
  let s' := stopAudio s in
  status (app s') = status (app s)
  /\ lastTranscript (app s') = lastTranscript (app s)
  /\ videoRef (app s') = videoRef (app s)
  /\ canvasRef (app s') = canvasRef (app s)
  /\ audioContextRef (app s') = audioContextRef (app s)
  /\ inputAudioContextRef (app s') = inputAudioContextRef (app s)
  /\ sessionRef (app s') = sessionRef (app s)
  /\ nextStartTimeRef (app s') = 0
  /\ activeSourcesRef (app s') = ∅
  /\ frameIntervalRef (app s') = frameIntervalRef (app s)
  /\ timers (env s') = timers (env s)
  /\ timerSerial (env s') = timerSerial (env s)
  /\ started (env s') = started (env s)
  /\ stopped (env s') = activeSourcesRef (app s) ∪ stopped (env s)
  /\ nodeSerial (env s') = nodeSerial (env s)
  /\ endedTracks (env s') = endedTracks (env s)
  /\ closedSessions (env s') = closedSessions (env s)
  /\ sent (env s') = sent (env s)
  /\ spoken (env s') = spoken (env s)
  /\ processors (env s') = processors (env s).
Proof.
  cbv zeta. rewrite stopAudio_eq. do 19 (split; [reflexivity|]). reflexivity.
Qed.

Lemma set_activeSourcesRef_same (s : State) :
  set_activeSourcesRef (activeSourcesRef (app s)) s = s.
Proof. destruct s as [[] ?]. reflexivity. Qed.

(** X7.  A second flush changes nothing; the completion handler of a
    source that fires after a flush or after a stop (as it does for every
    source the flush stopped) changes nothing; a flush just before a stop
    makes no difference to the stop. *)
Theorem flush_absorbs_late_completions (n : NodeId) (s : State) :
  stopAudio (stopAudio s) = stopAudio s
  /\ source_onended n (stopAudio s) = stopAudio s
  /\ source_onended n (stopAssistance s) = stopAssistance s
  /\ stopAssistance (stopAudio s) = stopAssistance s.
Proof.
  pose proof (stopAudio_fields s) as A. cbv zeta in A.
  pose proof (stopAssistance_fields s) as G. cbv zeta in G.
  split; [|split; [|split]].
  - pose proof (stopAudio_fields (stopAudio s)) as B. cbv zeta in B.
    remember (stopAudio (stopAudio s)) as u eqn:Hu. clear Hu.
    remember (stopAudio s) as t eqn:Ht. clear Ht.
    destruct A as (A1 & A2 & A3 & A4 & A5 & A6 & A7 & A8 & A9 & A10 & A11 & A12
                   & A13 & A14 & A15 & A16 & A17 & A18 & A19 & A20).
    destruct B as (B1 & B2 & B3 & B4 & B5 & B6 & B7 & B8 & B9 & B10 & B11 & B12
                   & B13 & B14 & B15 & B16 & B17 & B18 & B19 & B20).
    rewrite A9, (left_id_L ∅ (∪)) in B14.
    apply State_ext; try congruence. apply Browser_ext; congruence.
  - destruct A as (_ & _ & _ & _ & _ & _ & _ & _ & A9 & _).
    unfold source_onended. rewrite A9, empty_minus.
    rewrite <- A9 at 1. apply set_activeSourcesRef_same.
  - destruct G as (_ & _ & _ & _ & _ & _ & _ & _ & G9 & _).
    unfold source_onended. rewrite G9, empty_minus.
    rewrite <- G9 at 1. apply set_activeSourcesRef_same.
  - pose proof (stopAssistance_fields (stopAudio s)) as F. cbv zeta in F.
    remember (stopAssistance (stopAudio s)) as Z eqn:HZ. clear HZ.
    remember (stopAssistance s) as X eqn:HX. clear HX.
    remember (stopAudio s) as t eqn:Ht. clear Ht.
    destruct A as (A1 & A2 & A3 & A4 & A5 & A6 & A7 & A8 & A9 & A10 & A11 & A12
                   & A13 & A14 & A15 & A16 & A17 & A18 & A19 & A20).
    rewrite ?A3, ?A7, ?A9, ?A10, ?A11, ?A14, ?A16, ?A17, (left_id_L ∅ (∪)) in F.
    destruct F as (F1 & F2 & F3 & F4 & F5 & F6 & F7 & F8 & F9 & F10 & F11 & F12
                   & F13 & F14 & F15 & F16 & F17 & F18 & F19 & F20).
    destruct G as (G1 & G2 & G3 & G4 & G5 & G6 & G7 & G8 & G9 & G10 & G11 & G12
                   & G13 & G14 & G15 & G16 & G17 & G18 & G19 & G20).
    apply State_ext; try congruence. apply Browser_ext; congruence.
Qed.

(** X8.  The close callback that follows a user stop only adds its spoken
    notice: the state is the one the stop left, still Idle and released,
    with "Assistente desligado." said last; and it makes no difference
    whether the callback runs after the stop or before it. *)
Theorem close_after_stop (s : State) :
  onClose (stopAssistance s) = speak "Assistente desligado." (stopAssistance s)
  /\ status (app (onClose (stopAssistance s))) = IDLE
  /\ released (onClose (stopAssistance s))
  /\ stopAssistance (onClose s) = onClose (stopAssistance s).
Proof.
  pose proof (stopAssistance_fields s) as G. cbv zeta in G.
  destruct G as (G1 & G2 & G3 & G4 & G5 & G6 & G7 & G8 & G9 & G10 & G11 & G12
                 & G13 & G14 & G15 & G16 & G17 & G18 & G19 & G20).
  split; [|split; [|split]].
  - unfold onClose. destruct (stopAssistance s) as [[] ?]. simpl in G1. subst.
    reflexivity.
  - reflexivity.
  - destruct (stopAssistance_released s) as [_ R]. exact R.
  - pose proof (stopAssistance_fields (onClose s)) as F. cbv zeta in F.
    remember (stopAssistance (onClose s)) as Z eqn:HZ. clear HZ.
    remember (stopAssistance s) as X eqn:HX. clear HX.
    reduce_state in F.
    destruct F as (F1 & F2 & F3 & F4 & F5 & F6 & F7 & F8 & F9 & F10 & F11 & F12
                   & F13 & F14 & F15 & F16 & F17 & F18 & F19 & F20).
    apply State_ext; reduce_state; try congruence.
    apply Browser_ext; reduce_state; congruence.
Qed.

(** ** Server messages *)

(** X9.  A server message that carries audio and the interrupted flag
    together: [onmessage] handles the audio first, so the chunk is started
    and at once stopped by the flush; the active set ends empty and the
    cursor at 0. *)
Theorem message_with_audio_and_interrupt (now : Q) (buffer : AudioBuffer)
    (output input : option string) (s : State) (ctx : AudioContext) :
  audioContextRef (app s) = Some ctx ->
  let s' := onmessage now (mkMessage (Some buffer) true output input) s in
  started (env s')
    = started (env s)
      ++ [mkScheduled (nodeSerial (env s)) buffer
            (Math_max (nextStartTimeRef (app s)) now)]
  /\ stopped (env s') = {[nodeSerial (env s)]} ∪ activeSourcesRef (app s) ∪ stopped (env s)
  /\ activeSourcesRef (app s') = ∅
  /\ nextStartTimeRef (app s') = 0.
Proof.
  intros Hctx s'. subst s'. unfold onmessage. cbn [msg_audio msg_interrupted
    msg_outputTranscription msg_inputTranscription].
  destruct (onAudioOutput_with_context now buffer s ctx Hctx)
    as (Hst & _ & Hact & _ & Hstop).
  unfold onInterrupted. rewrite stopAudio_eq.
  destruct output, input; cbn; rewrite Hst, Hact, Hstop; auto.
Qed.

Lemma message_with_audio_and_interrupt_witness :
  let s' := onmessage (1 # 4) (mkMessage (Some halfSecond) true None None) oneQueued in
  started (env s')
    = started (env oneQueued)
      ++ [mkScheduled (nodeSerial (env oneQueued)) halfSecond
            (Math_max (nextStartTimeRef (app oneQueued)) (1 # 4))]
  /\ stopped (env s')
     = {[nodeSerial (env oneQueued)]} ∪ activeSourcesRef (app oneQueued)
       ∪ stopped (env oneQueued)
  /\ activeSourcesRef (app s') = ∅
  /\ nextStartTimeRef (app s') = 0.
Proof.
  apply (message_with_audio_and_interrupt (1 # 4) halfSecond None None oneQueued
           (mkAudioContext 24000)).
  reflexivity.
Defined.

(** X10.  The parts of a server message do not interfere.  The transcript
    kept after a message is its output transcription if it has one and
    the previous transcript otherwise, whatever audio, interruption or
    input transcription it carries; the scheduler's state is what the
    audio and the interruption alone make it; the status and the payloads
    sent are untouched. *)
Theorem onmessage_parts_independent (now : Q) (m : ServerMessage) (s : State) :
  lastTranscript (app (onmessage now m s))
    = default (lastTranscript (app s)) (msg_outputTranscription m)
  /\ playback_view (onmessage now m s)
     = playback_view
         (onmessage now (mkMessage (msg_audio m) (msg_interrupted m) None None) s)
  /\ status (app (onmessage now m s)) = status (app s)
  /\ sent (env (onmessage now m s)) = sent (env s).
Proof.
  destruct m as [audio interrupted output input]. unfold onmessage.
  cbn [msg_audio msg_interrupted msg_outputTranscription msg_inputTranscription].
  assert (Haudio :
    forall f : State -> string * AppState * list (SessionId * Media),
      (forall now b t, f (onAudioOutput now b t) = f t) ->
      f match audio with Some b => onAudioOutput now b s | None => s end = f s).
  { intros f Hf. destruct audio; [apply Hf | reflexivity]. }
  set (s1 := match audio with Some b => onAudioOutput now b s | None => s end) in *.
  assert (H1 : (lastTranscript (app s1), status (app s1), sent (env s1))
               = (lastTranscript (app s), status (app s), sent (env s))).
  { apply (Haudio (fun t => (lastTranscript (app t), status (app t), sent (env t)))).
    intros now' b t. unfold onAudioOutput.
    destruct (audioContextRef (app t)); reflexivity. }
  injection H1 as H1a H1b H1c.
  destruct interrupted; unfold onInterrupted; rewrite ?stopAudio_eq;
    destruct output, input; cbn; rewrite ?H1a, ?H1b, ?H1c; auto.
Qed.

(** ** Transcripts *)

Lemma run_snoc (es : list Event) (e : Event) (s : State) :
  run (es ++ [e]) s = handle e (run es s).
Proof. unfold run. by rewrite foldl_app. Qed.

Lemma setLastTranscript_twice (t t' : string) (s : State) :
  setLastTranscript t (setLastTranscript t' s) = setLastTranscript t s.
Proof. destruct s as [[] ?]. reflexivity. Qed.

Lemma transcriptions_snoc (ts : list (string * bool)) (t : string * bool) :
  transcriptions (ts ++ [t]) = transcriptions ts ++ [Transcription t.1 t.2].
Proof. unfold transcriptions. by rewrite fmap_app. Qed.

(** X11.  After any sequence of transcription events the transcript kept
    is the text of the last model transcript of the sequence, and nothing
    else has changed; if the sequence has only user transcripts (or is
    empty) the state is as it was. *)
Theorem last_model_transcript_wins (ts : list (string * bool)) (s : State) :
  run (transcriptions ts) s =
  match last_model_transcript ts with
  | Some text => setLastTranscript text s
  | None => s
  end.
Proof.
  induction ts as [|[text isUser] ts IH] using rev_ind; [reflexivity|].
  rewrite transcriptions_snoc, run_snoc, IH. cbn [handle fst snd].
  unfold last_model_transcript. rewrite filter_app.
  destruct isUser.
  - rewrite filter_cons_False by (cbn; discriminate). rewrite filter_nil, app_nil_r.
    reflexivity.
  - rewrite filter_cons_True by reflexivity. rewrite filter_nil, last_snoc. cbn.
    destruct (last (filter (fun t => t.2 = false) ts)) as [[t0 u0]|]; cbn;
      [apply setLastTranscript_twice | reflexivity].
Qed.

(** ** The status *)

(** X12.  The status after each event.  Pressing start gives Connecting; a
    rejected promise or the error callback gives Error; the close callback
    and the stop give Idle; the resolved session gives Active (Error if the
    input context is missing); and no media, playback, transcript or
    cadence event ever changes the status. *)
Theorem status_after_event (e : Event) (s : State) :
  status (app (handle e s)) =
  match e with
  | ClickStart => CONNECTING
  | MediaDenied | SessionFailed | TransportError => ERROR
  | TransportClose | ClickStop => IDLE
  | SessionOpened _ _ _ =>
      match inputAudioContextRef (app s) with
      | Some _ => ACTIVE
      | None => ERROR
      end
  | _ => status (app s)
  end.
Proof.
  destruct e; cbn [handle]; try reflexivity.
  - unfold startAssistance_gotMedia. destruct (videoRef (app s)); reflexivity.
  - unfold startAssistance_connected. cbn.
    destruct (inputAudioContextRef (app s)); reflexivity.
  - unfold onAudioOutput. destruct (audioContextRef (app s)); reflexivity.
  - unfold onInterrupted. rewrite stopAudio_eq. reflexivity.
  - destruct isUser; reflexivity.
  - unfold frameTick_complete, frameTick, toBlob_callback.
    destruct (videoRef (app s)), (canvasRef (app s)), (sessionRef (app s)) eqn:Hk,
      has2d, blob; cbn; rewrite ?Hk; reflexivity.
  - destruct h as [st]. rewrite onaudioprocess_gate.
    destruct st, (sessionRef (app s)); reflexivity.
  - unfold video_loadedmetadata. destruct (videoRef (app s)); reflexivity.
Qed.

Lemma append_empty_r (t : string) : String.append t "" = t.
Proof.
  induction t as [|a t IH]; [reflexivity|].
  change (String a (String.append t "") = String a t). by rewrite IH.
Qed.

(** X14.  What the status panel shows after a transcription event: the
    text of a model transcript (the placeholder if it is empty) when the
    status is Active, and in every other case (a user transcript, or any
    transcript while Idle, Connecting or Error) what it showed before. *)
Theorem panel_after_transcription (text : string) (isUser : bool) (s : State) :
  statusText (onTranscription text isUser s) =
  if decide (status (app s) = ACTIVE /\ isUser = false)
  then (if decide (text = "")
        then "Estou observando... Mantenha o celular firme à frente."
        else text)
  else statusText s.
Proof.
  destruct s as [[st ? ? ? ? ? ? ? ? ?] ?], isUser.
  - rewrite decide_False by (intros [_ H]; discriminate H). reflexivity.
  - destruct st.
    + rewrite decide_False by (intros [H _]; discriminate H). reflexivity.
    + rewrite decide_False by (intros [H _]; discriminate H). reflexivity.
    + rewrite decide_True by (split; reflexivity).
      unfold statusText. cbn. destruct (decide (text = "")); cbn;
        [reflexivity | apply append_empty_r].
    + rewrite decide_False by (intros [H _]; discriminate H). reflexivity.
Qed.

(** ** Starting *)

Lemma snoc_twice {A : Type} (l : list A) (a b : A) : (l ++ [a]) ++ [b] = l ++ [a; b].
Proof. by rewrite <- app_assoc. Qed.

(** X15.  A start whose two promises resolve, from a state with the video
    element mounted: the status ends Active, the output context runs at
    24000 Hz and the input context at 16000 Hz, the stream is attached to
    the video element, the session is stored, one new interval is live and
    held in [frameIntervalRef], one audio handler is connected (holding
    the status the button was pressed in), and the two notices were
    spoken.  It sends nothing, stops no track, and leaves the scheduler's
    cursor, active set and sources exactly as they were. *)
Theorem start_resolved (stream : MediaStream) (k : SessionId) (s : State)
    (v : VideoElement) :
  videoRef (app s) = Some v ->
  let s' := startAssistance_resolved stream k s in
  status (app s') = ACTIVE
  /\ audioContextRef (app s') = Some (mkAudioContext 24000)
  /\ inputAudioContextRef (app s') = Some (mkAudioContext 16000)
  /\ videoRef (app s') = Some (mkVideo (Some stream) (videoWidth v) (videoHeight v))
  /\ cadence_view s'
     = (Some k, Some (timerSerial (env s)), {[timerSerial (env s)]} ∪ timers (env s),
        Pos.succ (timerSerial (env s)),
        processors (env s) ++ [mkHandler (status (app s))])
  /\ spoken (env s')
     = spoken (env s)
       ++ ["Iniciando GuiaVision. Por favor, aguarde.";
           "Assistente ativo. Estou observando o caminho para você."]
  /\ playback_view s' = playback_view s
  /\ sent (env s') = sent (env s)
  /\ endedTracks (env s') = endedTracks (env s)
  /\ closedSessions (env s') = closedSessions (env s).
Proof.
  intros Hv. destruct s as [c b]; destruct c, b. simpl in Hv. subst.
  cbv zeta. do 5 (split; [reflexivity|]). split; [exact (snoc_twice _ _ _)|].
  do 3 (split; [reflexivity|]). reflexivity.
Qed.

Lemma start_resolved_witness :
  status (app (startAssistance_resolved [1%positive; 2%positive] 1%positive initial))
  = ACTIVE
  /\ playback_view (startAssistance_resolved [1%positive; 2%positive] 1%positive
                      closedRemotely)
     = playback_view closedRemotely.
Proof.
  split.
  - apply (start_resolved [1%positive; 2%positive] 1%positive initial (mkVideo None 0 0)).
    reflexivity.
  - apply (start_resolved [1%positive; 2%positive] 1%positive closedRemotely
             (mkVideo (Some [1%positive; 2%positive]) 640 480)).
    reflexivity.
Defined.

(** X16.  The audio handler that a press of the start button connects
    never sends.  The button is there only while the status is not Active,
    the handler's closure holds the status of that render, and the handler
    sends only if the status it holds is [ACTIVE]: whatever the samples
    and whatever the state when it runs, it returns the state unchanged. *)
Theorem button_started_handler_never_sends (stream : MediaStream) (k : SessionId)
    (s s2 : State) (inputData : list Q) :
  enabled ClickStart s = true ->
  exists h : AudioProcessHandler,
    processors (env (startAssistance_resolved stream k s)) = processors (env s) ++ [h]
    /\ onaudioprocess h inputData s2 = s2
    /\ sent (env (handle (AudioProcess h inputData)
                    (startAssistance_resolved stream k s)))
       = sent (env s).
Proof.
  intros Hen. exists (mkHandler (status (app s))).
  assert (Hmute : forall t, onaudioprocess (mkHandler (status (app s))) inputData t = t).
  { intros t. simpl in Hen. apply bool_decide_eq_true in Hen.
    rewrite onaudioprocess_gate. destruct (status (app s)); try reflexivity.
    contradiction. }
  split; [|split].
  - destruct s as [c b]; destruct c, b. destruct videoRef0; reflexivity.
  - apply Hmute.
  - cbn [handle]. rewrite Hmute.
    destruct s as [c b]; destruct c, b. destruct videoRef0; reflexivity.
Qed.

Lemma button_started_handler_never_sends_witness :
  exists h : AudioProcessHandler,
    processors (env (startAssistance_resolved [1%positive; 2%positive] 1%positive initial))
    = processors (env initial) ++ [h]
    /\ onaudioprocess h [1 # 2; -1] activeSession = activeSession
    /\ sent (env (handle (AudioProcess h [1 # 2; -1])
                    (startAssistance_resolved [1%positive; 2%positive] 1%positive
                       initial)))
       = sent (env initial).
Proof.
  apply (button_started_handler_never_sends [1%positive; 2%positive] 1%positive
           initial activeSession [1 # 2; -1]).
  reflexivity.
Defined.

(** X13.  A start that fails, because the media request is denied or,
    with the stream granted, because the connect is rejected: the status
    ends Error after the start notice and the failure notice were spoken;
    no session is stored, no interval is started, no audio handler is
    connected, nothing is sent, and the scheduler is untouched.  The two
    audio contexts have been created all the same, and a granted stream
    stays attached to the video element with none of its tracks stopped. *)
Theorem start_rejected (granted : option MediaStream) (s : State) :
  let s' := startAssistance_rejected granted s in
  status (app s') = ERROR
  /\ spoken (env s')
     = spoken (env s)
       ++ ["Iniciando GuiaVision. Por favor, aguarde.";
           "Não consegui acessar a câmera ou o microfone."]
  /\ cadence_view s' = cadence_view s
  /\ sent (env s') = sent (env s)
  /\ playback_view s' = playback_view s
  /\ audioContextRef (app s') = Some (mkAudioContext 24000)
  /\ inputAudioContextRef (app s') = Some (mkAudioContext 16000)
  /\ endedTracks (env s') = endedTracks (env s)
  /\ videoRef (app s')
     = match granted, videoRef (app s) with
       | Some stream, Some v => Some (mkVideo (Some stream) (videoWidth v) (videoHeight v))
       | _, _ => videoRef (app s)
       end.
Proof.
  destruct s as [c b]; destruct c, b. cbv zeta.
  destruct granted, videoRef0;
    (split; [reflexivity|]; split; [exact (snoc_twice _ _ _)|];
     do 6 (split; [reflexivity|]); reflexivity).
Qed.

(** ** What is sent *)

(** X17.  Only a frame tick and the audio callback ever send.  A tick
    sends at most one payload, tagged [image/jpeg], to the session held in
    [sessionRef], and only when the video element, the canvas element, the
    session, the 2d context and the blob are all there; the audio callback
    sends at most one payload, and only when the status its closure holds
    is [ACTIVE] and a session is set; every other event, the stop
    included, leaves the list of sent payloads as it was. *)
Theorem payloads_sent_by_event (e : Event) (s : State) :
  sent (env (handle e s)) =
  match e with
  | FrameTick has2d blob =>
      match videoRef (app s), canvasRef (app s), sessionRef (app s), has2d, blob with
      | Some _, Some _, Some k, true, Some base64 =>
          sent (env s) ++ [(k, mkMedia base64 "image/jpeg")]
      | _, _, _, _, _ => sent (env s)
      end
  | AudioProcess h inputData =>
      match cl_status h, sessionRef (app s) with
      | ACTIVE, Some k => sent (env s) ++ [(k, Pcm.createPcmBlob inputData)]
      | _, _ => sent (env s)
      end
  | _ => sent (env s)
  end.
Proof. exact (handle_sent e s). Qed.
